(** * async-context: scoped context values over Node's AsyncLocalStorage

    Verification of [src/context.ts]: [createContext], the [use] and [run]
    methods of a [ContextHandle], the stand-alone [use] and [runWithContext].

    The library is written against one host facility, [AsyncLocalStorage]
    from [node:async_hooks].  The development is organised as follows:

    - JavaScript values and the [??] operator;
    - [Async], the computations the library and its callers are written in:
      the calls into the host are its constructors;
    - the host: an execution frame per asynchronous extent, the synchronous
      start of a call ([start]), one turn of the event loop ([tick]), and
      the result of a call that is awaited to the end ([exec]);
    - the library, transcribed from the source;
    - callers: those of the test suite, and calls launched side by side
      with the turns of the event loop in any order;
    - properties of the host: [exec] agrees with the event loop, and tasks
      that create no storage do not see one another;
    - properties of the library, the scenarios of the test suite, and the
      properties the specification states. *)

From Stdlib Require Import ZArith String List Lia.
From stdpp Require Import base option list gmap.

Open Scope string_scope.

(** ** JavaScript values *)

(** The values a context can hold.  Numbers are integers here; objects
    other than arrays are compared by reference and stand as [VRef]. *)
#[warnings="-register-all"]
Inductive Value : Type :=
| VUndefined
| VNull
| VBool (b : bool)
| VNum (n : Z)
| VStr (s : string)
| VRef (addr : nat)
| VArr (items : list Value).

(** [a ?? b]: the right operand when the left one is [null] or
    [undefined], the left operand otherwise. *)
Definition nullish_coalesce (a b : Value) : Value :=
  match a with
  | VUndefined => b
  | VNull => b
  | _ => a
  end.

Infix "??" := nullish_coalesce (at level 45, left associativity).

(** The values that are [null] or [undefined]. *)
Definition nullish (v : Value) : Prop := v = VNull ∨ v = VUndefined.

(** A promise settles in one of two ways. *)
Inductive outcome (A : Type) : Type :=
| Fulfilled (a : A)
| Rejected (e : Value).

Arguments Fulfilled {A} a.
Arguments Rejected {A} e.

(** ** Computations *)

(** An [AsyncLocalStorage] instance is known by its identity. *)
Definition Storage : Type := nat.

(** A computation: what a function body does, as the tree of its calls
    into the host.  [Return] and [Throw] end it; [Sleep] is an [await] on
    something foreign to the library (a timer, a resolved promise);
    [StorageRun s v fn k] is [k (await s.run(v, fn))]. *)
Inductive Async (A : Type) : Type :=
| Return (a : A)
| Throw (e : Value)
| NewStorage (k : Storage -> Async A)
| EnterWith (s : Storage) (v : Value) (k : Async A)
| GetStore (s : Storage) (k : Value -> Async A)
| StorageRun (s : Storage) (v : Value) (fn : Async Value) (k : Value -> Async A)
| Sleep (k : Async A).

Arguments Return {A} a.
Arguments Throw {A} e.
Arguments NewStorage {A} k.
Arguments EnterWith {A} s v k.
Arguments GetStore {A} s k.
Arguments StorageRun {A} s v fn k.
Arguments Sleep {A} k.

Fixpoint bind {A B : Type} (m : Async A) (f : A -> Async B) : Async B :=
  match m with
  | Return a => f a
  | Throw e => Throw e
  | NewStorage k => NewStorage (fun s => bind (k s) f)
  | EnterWith s v k => EnterWith s v (bind k f)
  | GetStore s k => GetStore s (fun x => bind (k x) f)
  | StorageRun s v fn k => StorageRun s v fn (fun x => bind (k x) f)
  | Sleep k => Sleep (bind k f)
  end.

Notation "'let*' x ':=' m 'in' k" := (bind m (fun x => k))
  (at level 10, x name, m at level 100, k at level 200).

(** [await] on [d] successive timers, then [t]. *)
Fixpoint delay {A : Type} (d : nat) (t : Async A) : Async A :=
  match d with
  | O => t
  | S d' => Sleep (delay d' t)
  end.

(** ** The host *)

(** The stores visible in one asynchronous extent, by storage. *)
Abbreviation Frame := (gmap Storage Value).

(** What the event loop holds for a call that was started: its settled
    result, or a continuation suspended on a timer with the frame it will
    resume in, or a continuation waiting for a call it made. *)
Inductive Task (A : Type) : Type :=
| Settled (o : outcome A)
| Resumable (F : Frame) (t : Async A)
| Awaiting (F : Frame) (child : Task Value) (k : Value -> Async A).

Arguments Settled {A} o.
Arguments Resumable {A} F t.
Arguments Awaiting {A} F child k.

(** Modelled from the spec: [AsyncLocalStorage] of [node:async_hooks], the
    propagation carrier of the specification (its section 6), which is not
    part of the repository.  [getStore] is the spec's [currentBinding]: the
    store of the calling extent, [undefined] when there is none. *)
Definition getStore (F : Frame) (s : Storage) : Value :=
  default VUndefined (F !! s).

(** Modelled from the spec: the synchronous part of a call, up to its first
    [await], in the frame [F] of the caller and with [n] the next unused
    storage identity.  The result is the task left with the event loop, the
    frame as the caller finds it when the call hands back its promise, and
    the next unused identity.

    [enterWith] is the spec's [seed]: it binds in the current frame.
    [s.run(v, fn)] is the spec's [bindForExtent]: it binds [v], calls [fn],
    and puts the previous binding of [s] back when [fn] hands back its
    promise or throws; what [fn] does after its first [await] runs in the
    frame [fn] was suspended in. *)
Fixpoint start {A : Type} (t : Async A) (F : Frame) (n : nat)
  : Task A * Frame * nat :=
  match t with
  | Return a => (Settled (Fulfilled a), F, n)
  | Throw e => (Settled (Rejected e), F, n)
  | NewStorage k => start (k n) F (S n)
  | EnterWith s v k => start k (<[s:=v]> F) n
  | GetStore s k => start (k (getStore F s)) F n
  | StorageRun s v fn k =>
      let oldStore := getStore F s in
      let '(child, F1, n1) := start fn (<[s:=v]> F) n in
      let F2 := <[s:=oldStore]> F1 in
      (Awaiting F2 child k, F2, n1)
  | Sleep k => (Resumable F k, F, n)
  end.

(** Modelled from the spec: one turn of the event loop given to a task.  A
    suspended continuation resumes in the frame it was suspended in (the
    spec's section 5, assumption (c)); a task waiting for a call passes the
    turn on to it until it has settled, and then resumes with its result or
    is rejected with its error. *)
Fixpoint tick {A : Type} (T : Task A) (n : nat) : Task A * nat :=
  match T with
  | Settled o => (Settled o, n)
  | Resumable F t => let '(T', _, n') := start t F n in (T', n')
  | Awaiting F child k =>
      match child with
      | Settled (Fulfilled b) => let '(T', _, n') := start (k b) F n in (T', n')
      | Settled (Rejected e) => (Settled (Rejected e), n)
      | _ => let '(child', n') := tick child n in (Awaiting F child' k, n')
      end
  end.

(** [fuel] turns in a row. *)
Fixpoint ticks {A : Type} (fuel : nat) (T : Task A) (n : nat) : Task A * nat :=
  match fuel with
  | O => (T, n)
  | S fuel' => let '(T', n') := tick T n in ticks fuel' T' n'
  end.

(** Modelled from the spec: a call that is awaited to the end, in one piece.
    The result is how its promise settles, the frame as the caller finds it
    when the call hands back its promise (the frame the caller resumes in
    when it awaits that promise), and the next unused storage identity. *)
Fixpoint exec {A : Type} (t : Async A) (F : Frame) (n : nat)
  : outcome A * Frame * nat :=
  match t with
  | Return a => (Fulfilled a, F, n)
  | Throw e => (Rejected e, F, n)
  | NewStorage k => exec (k n) F (S n)
  | EnterWith s v k => exec k (<[s:=v]> F) n
  | GetStore s k => exec (k (getStore F s)) F n
  | StorageRun s v fn k =>
      let oldStore := getStore F s in
      let '(ob, F1, n1) := exec fn (<[s:=v]> F) n in
      let F2 := <[s:=oldStore]> F1 in
      match ob with
      | Fulfilled b => let '(o, _, n2) := exec (k b) F2 n1 in (o, F2, n2)
      | Rejected e => (Rejected e, F2, n1)
      end
  | Sleep k => let '(o, _, n') := exec k F n in (o, F, n')
  end.

(** The three components of what [exec] returns. *)
Definition result {A : Type} (r : outcome A * Frame * nat) : outcome A :=
  r.1.1.
Definition frameAfter {A : Type} (r : outcome A * Frame * nat) : Frame :=
  r.1.2.
Definition nextAfter {A : Type} (r : outcome A * Frame * nat) : nat :=
  r.2.

(** The calls of the source into the host, as computations. *)
Module AsyncLocalStorage.
Definition new : Async Storage := NewStorage Return.
Definition enterWith (storage : Storage) (store : Value) : Async unit :=
  EnterWith storage store (Return tt).
Definition getStore (storage : Storage) : Async Value :=
  GetStore storage Return.
Definition run (storage : Storage) (store : Value) (fn : Async Value)
  : Async Value :=
  StorageRun storage store fn Return.
End AsyncLocalStorage.

(** ** The library: src/context.ts *)

(** [interface ContextHandle<Context>]. *)
Module ContextHandle.
Record t : Type := Build {
  use : Async Value;
  run : Value -> Async Value -> Async Value;
}.
End ContextHandle.
Abbreviation ContextHandle := ContextHandle.t.

(** The object literal [createContext] returns, as a function of the two
    variables its methods close over. *)
Definition handleOf (storage : Storage) (initialValue : Value) : ContextHandle :=
  {| ContextHandle.use :=
       let* value := AsyncLocalStorage.getStore storage in
       Return (value ?? initialValue);
     ContextHandle.run := fun value fn =>
       AsyncLocalStorage.run storage value fn |}.

Definition createContext (initialValue : Value) : Async ContextHandle :=
  let* storage := AsyncLocalStorage.new in
  let* _ := AsyncLocalStorage.enterWith storage initialValue in
  Return (handleOf storage initialValue).

Definition use (handle : ContextHandle) : Async Value :=
  ContextHandle.use handle.

Definition runWithContext (handle : ContextHandle) (value : Value)
  : Async Value -> Async Value :=
  fun fn => ContextHandle.run handle value fn.

(** ** Callers

    The callers the properties are stated on, after the test suite. *)

(** The body of the nesting property: read, read inside an inner [run],
    read again, and return the three reads. *)
Definition nested (handle : ContextHandle) (inner : Value) : Async Value :=
  let* outerValue := use handle in
  let* innerValue := ContextHandle.run handle inner (use handle) in
  let* outerValueAfter := use handle in
  Return (VArr [outerValue; innerValue; outerValueAfter]).

(** Read [other], read it inside a [run] on [running], read it again, and
    return the three reads. *)
Definition readAround (running other : ContextHandle) (value : Value)
  : Async Value :=
  let* before := use other in
  let* inside := ContextHandle.run running value (use other) in
  let* after := use other in
  Return (VArr [before; inside; after]).

(** Two handles from two calls of [createContext], each read around a
    [run] on the other. *)
Definition twoHandles (default1 default2 value : Value) : Async Value :=
  let* handle1 := createContext default1 in
  let* handle2 := createContext default2 in
  let* reads2 := readAround handle1 handle2 value in
  let* reads1 := readAround handle2 handle1 value in
  Return (VArr [reads2; reads1]).

(** [[current, ...nextResults]] of the test of deep nesting, on an array,
    which is what [deepAsync] returns. *)
Definition spread (current nextResults : Value) : Value :=
  match nextResults with
  | VArr items => VArr (current :: items)
  | _ => VUndefined
  end.

(** [deepAsync] of the test of deep nesting: each level reads the handle
    and runs the next one, after a timer, with the read plus one.
    [plusOne] stands for [current + 1]: the addition of JavaScript is not
    modelled, and what is proved of [deepAsync] assumes of it only what it
    computes on the numbers met. *)
Fixpoint deepAsync (plusOne : Value -> Value) (handle : ContextHandle)
    (depth : nat) : Async Value :=
  let* current := use handle in
  match depth with
  | O => Return (VArr [current])
  | S depth' =>
      let* nextResults :=
        ContextHandle.run handle (plusOne current)
          (Sleep (deepAsync plusOne handle depth')) in
      Return (spread current nextResults)
  end.

(** The operation of the test of asynchronous boundaries: a read after a
    timer, a read after a resolved promise, and two reads on the spot. *)
Definition acrossBoundaries (handle : ContextHandle) : Async Value :=
  let* timeoutResult := Sleep (use handle) in
  let* promiseResult := Sleep (use handle) in
  let* first := use handle in
  let* second := use handle in
  Return (VArr [timeoutResult; promiseResult; VArr [first; second]]).

(** The operation of the test of errors: a read, then a throw. *)
Definition throwing (handle : ContextHandle) (error : Value) : Async Value :=
  let* contextBeforeError := use handle in
  Throw error.

(** ** Concurrent calls *)

(** The calls of an array literal [[c0(), c1(), ...]]: each is started in
    turn, none is awaited, and each leaves its task with the event loop. *)
Fixpoint launch (calls : list (Async Value)) (F : Frame) (n : nat)
  : list (Task Value) * Frame * nat :=
  match calls with
  | [] => ([], F, n)
  | c :: calls' =>
      let '(T, F1, n1) := start c F n in
      let '(Ts, F2, n2) := launch calls' F1 n1 in
      (T :: Ts, F2, n2)
  end.

(** The event loop: the tasks it holds, in the order they were started,
    and the next unused storage identity. *)
Record Loop : Type := {
  pending : list (Task Value);
  nextStorage : nat;
}.

(** The turn goes to task [i]. *)
Definition turn (i : nat) (L : Loop) : Loop :=
  match pending L !! i with
  | Some T =>
      let '(T', n') := tick T (nextStorage L) in
      {| pending := <[i:=T']> (pending L); nextStorage := n' |}
  | None => L
  end.

(** The turns go to the tasks in the given order. *)
Definition schedule (order : list nat) (L : Loop) : Loop :=
  foldl (fun L i => turn i L) L order.

(** [handle.run(v, ...)] on an operation that reads the handle after [d]
    timers. *)
Definition readAfter (handle : ContextHandle) (v : Value) (d : nat)
  : Async Value :=
  ContextHandle.run handle v (delay d (use handle)).

(** The fan-out of the specification's concurrency property on a handle:
    one [handle.run(i, op)] per operation of [ops], call [i] binding the
    number [i]. *)
Definition fanOut (handle : ContextHandle) (ops : list (Async Value))
  : list (Async Value) :=
  imap (fun i op => ContextHandle.run handle (VNum (Z.of_nat i)) op) ops.

(** A computation that creates no storage, and a task that will create
    none. *)
Fixpoint allocFree {A : Type} (t : Async A) : Prop :=
  match t with
  | Return _ => True
  | Throw _ => True
  | NewStorage _ => False
  | EnterWith _ _ k => allocFree k
  | GetStore _ k => ∀ x, allocFree (k x)
  | StorageRun _ _ fn k => allocFree fn ∧ ∀ x, allocFree (k x)
  | Sleep k => allocFree k
  end.

Fixpoint allocFreeTask {A : Type} (T : Task A) : Prop :=
  match T with
  | Settled _ => True
  | Resumable _ t => allocFree t
  | Awaiting _ child k => allocFreeTask child ∧ ∀ x, allocFree (k x)
  end.

(** A computation that binds, with [enterWith], only storages from [lo]
    on, given that the storages it creates are from [lo] on.  Whatever is
    written against [createContext], [use] and [run] alone is so for every
    [lo]. *)
Fixpoint writesAbove {A : Type} (lo : nat) (t : Async A) : Prop :=
  match t with
  | Return _ => True
  | Throw _ => True
  | NewStorage k => ∀ s, lo ≤ s → writesAbove lo (k s)
  | EnterWith s _ k => lo ≤ s ∧ writesAbove lo k
  | GetStore _ k => ∀ x, writesAbove lo (k x)
  | StorageRun _ _ fn k => writesAbove lo fn ∧ ∀ x, writesAbove lo (k x)
  | Sleep k => writesAbove lo k
  end.

(** Frames that hold the same store for every storage: a storage without
    a store and a storage whose store is [undefined] read alike. *)
Definition sameStores (F G : Frame) : Prop :=
  ∀ s, getStore F s = getStore G s.

(** A computation that reads storages, runs in them, awaits, returns and
    throws, and does nothing else: it creates no storage and calls no
    [enterWith].  Whatever is written against [use] and [run] of handles
    that exist is so. *)
Fixpoint bindsNothing {A : Type} (t : Async A) : Prop :=
  match t with
  | Return _ => True
  | Throw _ => True
  | NewStorage _ => False
  | EnterWith _ _ _ => False
  | GetStore _ k => ∀ x, bindsNothing (k x)
  | StorageRun _ _ fn k => bindsNothing fn ∧ ∀ x, bindsNothing (k x)
  | Sleep k => bindsNothing k
  end.

(** The array [[k, k + 1, ..., k + depth]]. *)
Definition countUp (k : Z) (depth : nat) : Value :=
  VArr (VNum <$> seqZ k (Z.of_nat (S depth))).

(** The calls [handle.run(v, op)], one per entry [(v, op)], of an array
    literal. *)
Definition runEach (handle : ContextHandle) (bound : list (Value * Async Value))
  : list (Async Value) :=
  (fun vop => ContextHandle.run handle vop.1 vop.2) <$> bound.

(** Runs on one handle nested to any depth, one level per value: each
    level reads the handle, goes one level down, reads the handle again and
    returns the two reads around what the level below returned. *)
Fixpoint stacked (handle : ContextHandle) (vs : list Value) : Async Value :=
  match vs with
  | [] => Return (VArr [])
  | v :: vs' =>
      ContextHandle.run handle v
        (let* before := use handle in
         let* below := stacked handle vs' in
         let* after := use handle in
         Return (VArr [before; below; after]))
  end.

(** What the levels read when each reads the value bound at its level,
    [read v] being what a read returns where [v] is bound. *)
Fixpoint stackedReads (read : Value -> Value) (vs : list Value) : Value :=
  match vs with
  | [] => VArr []
  | v :: vs' => VArr [read v; stackedReads read vs'; read v]
  end.

(** ** Properties of the host *)

Section Host.
Context {A : Type}.
Implicit Types (F : Frame) (s : Storage) (v : Value) (n : nat).

Lemma getStore_insert_eq F s v : getStore (<[s:=v]> F) s = v.
Proof. unfold getStore. by rewrite lookup_insert_eq. Qed.

Lemma getStore_insert_ne F s s' v :
  s ≠ s' → getStore (<[s:=v]> F) s' = getStore F s'.
Proof. intros Hne. unfold getStore. by rewrite lookup_insert_ne. Qed.

Lemma getStore_empty s : getStore ∅ s = VUndefined.
Proof. unfold getStore. by rewrite lookup_empty. Qed.

(** [s.run(v, fn)] awaited: the promise settles as the one of [fn], and
    the caller is back with the store [s] had before. *)
Lemma exec_StorageRun s v (fn : Async Value) F n :
  exec (AsyncLocalStorage.run s v fn) F n =
  let r := exec fn (<[s:=v]> F) n in
  (result r, <[s:=getStore F s]> (frameAfter r), nextAfter r).
Proof.
  unfold AsyncLocalStorage.run. cbn [exec].
  destruct (exec fn (<[s:=v]> F) n) as [[[b|e] F1] n1]; reflexivity.
Qed.

Lemma exec_delay d (t : Async A) F n :
  result (exec (delay d t) F n) = result (exec t F n).
Proof.
  induction d as [|d IH]; [reflexivity|].
  cbn [delay exec]. rewrite <- IH.
  by destruct (exec (delay d t) F n) as [[o F'] n'].
Qed.
End Host.

(** Reads of a frame after writes to it. *)
Ltac stores :=
  repeat first
    [ rewrite getStore_insert_eq
    | rewrite getStore_insert_ne by (done || lia) ].

(** *** Storages are private to those who hold them *)

(** A call that binds only storages from [lo] on hands back the frame
    with every older store as it was. *)
Lemma exec_writesAbove {A : Type} (lo : nat) (t : Async A) :
  writesAbove lo t → ∀ F n s, lo ≤ n → s < lo →
  getStore (frameAfter (exec t F n)) s = getStore F s.
Proof.
  unfold frameAfter.
  induction t as [A a | A e | A k IH | A s' v k IH | A s' k IH
                 | A s' v fn IHfn k IHk | A k IH];
    cbn [writesAbove exec]; intros Ht F n s Hn Hs.
  - done.
  - done.
  - apply IH; [auto | lia | done].
  - destruct Ht as [Hs' Hk]. rewrite IH by done.
    apply getStore_insert_ne. lia.
  - by apply IH.
  - destruct Ht as [Hfn Hk]. specialize (IHfn Hfn (<[s':=v]> F) n s Hn Hs).
    destruct (exec fn (<[s':=v]> F) n) as [[ob F1] n1]. cbn [fst snd] in *.
    assert (getStore (<[s':=getStore F s']> F1) s = getStore F s) as Hback.
    { destruct (decide (s' = s)) as [->|Hne].
      - apply getStore_insert_eq.
      - rewrite getStore_insert_ne by done. rewrite IHfn.
        by apply getStore_insert_ne. }
    destruct ob as [b|e]; [|done].
    by destruct (exec (k b) (<[s':=getStore F s']> F1) n1) as [[o F3] n2].
  - by destruct (exec k F n) as [[o F'] n'].
Qed.

(** *** The event loop agrees with [exec] *)

Lemma ticks_Settled {A : Type} fuel (o : outcome A) n :
  ticks fuel (Settled o) n = (Settled o, n).
Proof. induction fuel as [|fuel IH]; [done|]. cbn. apply IH. Qed.

Lemma ticks_S {A : Type} fuel (T : Task A) n :
  ticks (S fuel) T n = ticks fuel (tick T n).1 (tick T n).2.
Proof. cbn [ticks]. by destruct (tick T n). Qed.

Lemma ticks_add {A : Type} fuel1 fuel2 (T : Task A) n :
  ticks (fuel1 + fuel2) T n
  = ticks fuel2 (ticks fuel1 T n).1 (ticks fuel1 T n).2.
Proof.
  revert T n. induction fuel1 as [|fuel1 IH]; intros T n; [done|].
  cbn [Nat.add]. rewrite !ticks_S. apply IH.
Qed.

(** While the call it waits for has not settled, a task passes its turns
    on to it. *)
Lemma ticks_Awaiting {A : Type} F (k : Value → Async A) fuel :
  ∀ (child : Task Value) n o n',
    ticks fuel child n = (Settled o, n') →
    ∃ fuel', ticks fuel' (Awaiting F child k) n = (Awaiting F (Settled o) k, n').
Proof.
  induction fuel as [|fuel IH]; intros child n o n' Hchild.
  - cbn in Hchild. injection Hchild as -> ->. by exists 0.
  - destruct child as [o0 | G t | G grandchild k0].
    + rewrite ticks_Settled in Hchild. injection Hchild as -> ->. by exists 0.
    + rewrite ticks_S in Hchild. apply IH in Hchild as [fuel' Hfuel'].
      exists (S fuel'). rewrite ticks_S.
      cbn [tick] in *. by destruct (start t G n) as [[T' ?] n1].
    + rewrite ticks_S in Hchild. apply IH in Hchild as [fuel' Hfuel'].
      exists (S fuel'). rewrite ticks_S.
      change (tick (Awaiting F (Awaiting G grandchild k0) k) n)
        with (let '(child', n1) := tick (Awaiting G grandchild k0) n in
              (Awaiting F child' k, n1)).
      by destruct (tick (Awaiting G grandchild k0) n) as [T' n1].
Qed.

(** Given its turns, a started call settles as [exec] says, having
    allocated the same storages, and it handed back the same frame. *)
Theorem exec_adequate {A : Type} (t : Async A) F n :
  (start t F n).1.2 = frameAfter (exec t F n)
  ∧ ∃ fuel,
      ticks fuel (start t F n).1.1 (start t F n).2
      = (Settled (result (exec t F n)), nextAfter (exec t F n)).
Proof.
  revert F n.
  induction t as [A a | A e | A k IH | A s v k IH | A s k IH
                 | A s v fn IHfn k IHk | A k IH]; intros F n.
  - split; [done|]. by exists 0.
  - split; [done|]. by exists 0.
  - apply IH.
  - apply IH.
  - apply IH.
  - cbn [start exec].
    destruct (IHfn (<[s:=v]> F) n) as [HF [fuel1 Hfuel1]].
    destruct (start fn (<[s:=v]> F) n) as [[child F1] n1].
    destruct (exec fn (<[s:=v]> F) n) as [[ob F1'] n1'].
    unfold frameAfter, result, nextAfter in *. cbn [fst snd] in *. subst F1'.
    remember (<[s:=getStore F s]> F1) as F2 eqn:HF2. clear HF2.
    destruct (ticks_Awaiting F2 k _ _ _ _ _ Hfuel1) as [fuel1' Hfuel1'].
    destruct ob as [b|e].
    + destruct (IHk b F2 n1') as [_ [fuel2 Hfuel2]].
      destruct (exec (k b) F2 n1') as [[o F3] n2].
      split; [done|]. exists (fuel1' + S fuel2).
      rewrite ticks_add, Hfuel1', ticks_S. cbn [fst snd tick] in *.
      by destruct (start (k b) F2 n1') as [[T' ?] n2'].
    + split; [done|]. exists (fuel1' + 1).
      by rewrite ticks_add, Hfuel1'.
  - cbn [start exec]. destruct (IH F n) as [_ [fuel Hfuel]].
    destruct (exec k F n) as [[o F'] n'].
    split; [done|]. exists (S fuel). rewrite ticks_S. cbn [fst snd tick] in *.
    by destruct (start k F n) as [[T' ?] n0].
Qed.

(** *** Tasks that create no storage do not see one another *)

Lemma start_allocFree {A : Type} (t : Async A) :
  allocFree t → ∀ F n,
    (start t F n).2 = n
    ∧ allocFreeTask (start t F n).1.1
    ∧ ∀ m, (start t F m).1 = (start t F n).1.
Proof.
  induction t as [A a | A e | A k IH | A s v k IH | A s k IH
                 | A s v fn IHfn k IHk | A k IH]; cbn [allocFree start].
  - done.
  - done.
  - done.
  - intros Hk F n. apply (IH Hk).
  - intros Hk F n. apply (IH _ (Hk _)).
  - intros [Hfn Hk] F n.
    destruct (IHfn Hfn (<[s:=v]> F) n) as (Hn & Hchild & Hind).
    split_and!.
    + by destruct (start fn (<[s:=v]> F) n) as [[child F1] n1].
    + by destruct (start fn (<[s:=v]> F) n) as [[child F1] n1].
    + intros m. specialize (Hind m).
      destruct (start fn (<[s:=v]> F) n) as [[child F1] n1].
      destruct (start fn (<[s:=v]> F) m) as [[child' F1'] n1'].
      cbn in *. by simplify_eq.
  - done.
Qed.

Lemma tick_allocFree {A : Type} (T : Task A) :
  allocFreeTask T → ∀ n,
    (tick T n).2 = n
    ∧ allocFreeTask (tick T n).1
    ∧ ∀ m, (tick T m).1 = (tick T n).1.
Proof.
  induction T as [A o | A F t | A F child IH k]; cbn [allocFreeTask].
  - done.
  - intros Ht n. destruct (start_allocFree t Ht F n) as (Hn & HT & Hind).
    cbn [tick]. split_and!.
    + by destruct (start t F n) as [[T' F'] n'].
    + by destruct (start t F n) as [[T' F'] n'].
    + intros m. specialize (Hind m).
      destruct (start t F n) as [[T' F'] n'].
      destruct (start t F m) as [[T'' F''] n''].
      cbn in *. by simplify_eq.
  - intros [Hchild Hk] n.
    destruct child as [[b|e] | G t | G grandchild k0].
    + destruct (start_allocFree (k b) (Hk b) F n) as (Hn & HT & Hind).
      cbn [tick]. split_and!.
      * by destruct (start (k b) F n) as [[T' F'] n'].
      * by destruct (start (k b) F n) as [[T' F'] n'].
      * intros m. specialize (Hind m).
        destruct (start (k b) F n) as [[T' F'] n'].
        destruct (start (k b) F m) as [[T'' F''] n''].
        cbn in *. by simplify_eq.
    + done.
    + destruct (IH Hchild n) as (Hn & HT & Hind).
      change (tick (Awaiting F (Resumable G t) k))
        with (λ n, let '(child', n') := tick (Resumable G t) n in
                   (Awaiting F child' k, n')).
      cbv beta. split_and!.
      * by destruct (tick (Resumable G t) n).
      * by destruct (tick (Resumable G t) n).
      * intros m. specialize (Hind m).
        destruct (tick (Resumable G t) n), (tick (Resumable G t) m).
        cbn in *. by simplify_eq.
    + destruct (IH Hchild n) as (Hn & HT & Hind).
      change (tick (Awaiting F (Awaiting G grandchild k0) k))
        with (λ n, let '(child', n') := tick (Awaiting G grandchild k0) n in
                   (Awaiting F child' k, n')).
      cbv beta. split_and!.
      * by destruct (tick (Awaiting G grandchild k0) n).
      * by destruct (tick (Awaiting G grandchild k0) n).
      * intros m. specialize (Hind m).
        destruct (tick (Awaiting G grandchild k0) n),
                 (tick (Awaiting G grandchild k0) m).
        cbn in *. by simplify_eq.
Qed.

(** Once settled, settled for good. *)
Lemma ticks_ge {A : Type} fuel fuel' (T : Task A) n o :
  (ticks fuel T n).1 = Settled o → fuel ≤ fuel' →
  (ticks fuel' T n).1 = Settled o.
Proof.
  intros Ho Hle. replace fuel' with (fuel + (fuel' - fuel)) by lia.
  by rewrite ticks_add, Ho, ticks_Settled.
Qed.

Lemma ticks_settled_agree {A : Type} fuel fuel' (T : Task A) n o o' :
  (ticks fuel T n).1 = Settled o → (ticks fuel' T n).1 = Settled o' → o = o'.
Proof.
  intros Ho Ho'. destruct (decide (fuel ≤ fuel')).
  - eapply ticks_ge in Ho; [|done]. congruence.
  - eapply (ticks_ge fuel' fuel) in Ho'; [|lia]. congruence.
Qed.

(** Launching calls that create no storage leaves tasks that create none;
    task [i] is the start of call [i] in the frame the calls before it
    handed back. *)
Lemma launch_allocFree calls : ∀ F n,
  Forall allocFree calls →
  (launch calls F n).2 = n
  ∧ Forall allocFreeTask (launch calls F n).1.1
  ∧ length (launch calls F n).1.1 = length calls
  ∧ ∀ i c, calls !! i = Some c →
      (launch calls F n).1.1 !! i
      = Some (start c (launch (take i calls) F n).1.2 n).1.1.
Proof.
  induction calls as [|c calls IH]; intros F n Hcalls.
  { split_and!; [done..|]. intros i c. by rewrite lookup_nil. }
  apply Forall_cons in Hcalls as [Hc Hcalls]. cbn [launch].
  destruct (start_allocFree c Hc F n) as (Hn & HT & _).
  destruct (start c F n) as [[T F1] n1] eqn:Hstart. cbn in Hn, HT. subst n1.
  destruct (IH F1 n Hcalls) as (Hn' & HTs & Hlen & Hlookup).
  destruct (launch calls F1 n) as [[Ts F2] n2] eqn:Hlaunch. cbn in *.
  split_and!; [done| by constructor | by rewrite Hlen |].
  intros [|i] c' Hc'; cbn in *.
  - injection Hc' as <-. by rewrite Hstart.
  - rewrite Hstart. specialize (Hlookup i c' Hc').
    by destruct (launch (take i calls) F1 n) as [[Ts' F'] n'].
Qed.

(** Whatever the order of the turns, a task that creates no storage is
    where its own turns alone bring it. *)
Theorem schedule_isolated order : ∀ L,
  Forall allocFreeTask (pending L) →
  nextStorage (schedule order L) = nextStorage L
  ∧ pending (schedule order L)
    = imap (λ i T, (ticks (count_occ Nat.eq_dec order i) T (nextStorage L)).1)
        (pending L).
Proof.
  induction order as [|j order IH]; intros L HL.
  { split; [done|]. apply list_eq. intros i. cbn. rewrite list_lookup_imap.
    by destruct (pending L !! i). }
  cbn [schedule foldl]. fold (schedule order (turn j L)).
  assert (nextStorage (turn j L) = nextStorage L
          ∧ Forall allocFreeTask (pending (turn j L))
          ∧ ∀ i, pending (turn j L) !! i
                 = (λ T, if decide (i = j) then (tick T (nextStorage L)).1
                         else T) <$> pending L !! i) as (Hn & HL' & Hturn).
  { unfold turn. destruct (pending L !! j) as [T|] eqn:HT.
    - pose proof (Forall_lookup_1 _ _ _ _ HL HT) as HfT.
      destruct (tick_allocFree T HfT (nextStorage L)) as (Hn & HT' & _).
      destruct (tick T (nextStorage L)) as [T' n'] eqn:Htick. cbn in *.
      split_and!; [done| by apply Forall_insert |].
      intros i. destruct (decide (i = j)) as [->|Hij].
      + rewrite list_lookup_insert_eq by by eapply lookup_lt_Some.
        rewrite HT. cbn. by rewrite Htick.
      + rewrite list_lookup_insert_ne by done. by destruct (pending L !! i).
    - split_and!; [done..|]. intros i.
      destruct (pending L !! i) eqn:Hi; [|done]. cbn.
      case_decide; [congruence|done]. }
  destruct (IH _ HL') as [Hn' Hpending]. rewrite Hn', Hpending, Hn.
  split; [done|]. apply list_eq. intros i. rewrite !list_lookup_imap, Hturn.
  destruct (pending L !! i) as [T|] eqn:HT; [|done]. cbn. f_equal.
  destruct (Nat.eq_dec j i) as [->|Hji].
  - rewrite decide_True by done. rewrite ticks_S.
    pose proof (Forall_lookup_1 _ _ _ _ HL HT) as HfT.
    destruct (tick_allocFree T HfT (nextStorage L)) as (-> & _). done.
  - by rewrite decide_False by done.
Qed.

(** Whatever the order of the turns and whatever the other calls, a call
    that creates no storage, launched among others that create none,
    settles as [exec] says of it alone, in the frame the calls launched
    before it handed back; and it does settle, given enough turns. *)
Theorem launched_settles_as_alone calls F n i c :
  Forall allocFree calls →
  calls !! i = Some c →
  let alone := result (exec c (launch (take i calls) F n).1.2 n) in
  let loop order :=
    schedule order {| pending := (launch calls F n).1.1;
                      nextStorage := (launch calls F n).2 |} in
  (∀ order o, pending (loop order) !! i = Some (Settled o) → o = alone)
  ∧ ∃ fuel, ∀ order, fuel ≤ count_occ Nat.eq_dec order i →
      pending (loop order) !! i = Some (Settled alone).
Proof.
  intros Hcalls Hc alone loop.
  destruct (launch_allocFree calls F n Hcalls) as (Hn & HTs & _ & Hlookup).
  specialize (Hlookup i c Hc).
  set (Fc := (launch (take i calls) F n).1.2) in *.
  destruct (exec_adequate c Fc n) as [_ [fuel Hfuel]].
  pose proof (Forall_lookup_1 _ _ _ _ Hcalls Hc) as Hfree.
  destruct (start_allocFree c Hfree Fc n) as (Hstart & _).
  rewrite Hstart in Hfuel. apply (f_equal fst) in Hfuel. cbn [fst] in Hfuel.
  assert (∀ order, pending (loop order) !! i
            = Some (ticks (count_occ Nat.eq_dec order i)
                      (start c Fc n).1.1 n).1) as Hloop.
  { intros order. unfold loop.
    destruct (schedule_isolated order
                (Build_Loop (launch calls F n).1.1 (launch calls F n).2) HTs)
      as [_ ->].
    cbn [pending nextStorage]. by rewrite list_lookup_imap, Hlookup, Hn. }
  split.
  - intros order o. rewrite Hloop. intros [= Ho].
    by eapply ticks_settled_agree.
  - exists fuel. intros order Hturns. rewrite Hloop. f_equal.
    by eapply ticks_ge.
Qed.

(** ** Properties of the library *)

Section Handle.
Variables (storage : Storage) (initialValue : Value).
Local Abbreviation handle := (handleOf storage initialValue).
Implicit Types (F : Frame) (n : nat).

(** [createContext] allocates a storage, seeds it and returns the handle
    over it. *)
Lemma exec_createContext F n :
  exec (createContext initialValue) F n =
  (Fulfilled (handleOf n initialValue), <[n:=initialValue]> F, S n).
Proof. reflexivity. Qed.

Lemma exec_use F n :
  exec (use handle) F n =
  (Fulfilled (getStore F storage ?? initialValue), F, n).
Proof. reflexivity. Qed.

Lemma exec_run value (fn : Async Value) F n :
  exec (ContextHandle.run handle value fn) F n =
  let r := exec fn (<[storage:=value]> F) n in
  (result r, <[storage:=getStore F storage]> (frameAfter r), nextAfter r).
Proof. apply exec_StorageRun. Qed.

(** What follows [await handle.run(value, fn)] runs in the frame [run]
    handed back, when [fn] was fulfilled, and does not run otherwise. *)
Lemma exec_run_then {B : Type} value (fn : Async Value)
    (k : Value → Async B) F n :
  exec (let* x := ContextHandle.run handle value fn in k x) F n =
  let r := exec (ContextHandle.run handle value fn) F n in
  match result r with
  | Fulfilled b =>
      let r' := exec (k b) (frameAfter r) (nextAfter r) in
      (result r', frameAfter r, nextAfter r')
  | Rejected e => (Rejected e, frameAfter r, nextAfter r)
  end.
Proof.
  rewrite exec_run. cbn.
  destruct (exec fn (<[storage:=value]> F) n) as [[[b|e] F1] n1]; cbn;
    [|done].
  by destruct (exec (k b) _ n1) as [[o F3] n2].
Qed.

(** The read inside [run(value, ...)], for any [value]. *)
Lemma exec_run_use value F n :
  result (exec (ContextHandle.run handle value (use handle)) F n) =
  Fulfilled (value ?? initialValue).
Proof.
  rewrite exec_run, exec_use. cbn. by rewrite getStore_insert_eq.
Qed.

(** An operation written against the library leaves the storages that are
    older than it to the caller of [run] as they were. *)
Lemma run_keeps_older_stores lo value (fn : Async Value) F n s :
  writesAbove lo fn → lo ≤ n → s < lo →
  getStore (frameAfter (exec (ContextHandle.run handle value fn) F n)) s
  = getStore F s.
Proof. intros Hfn. apply exec_writesAbove. by split. Qed.
End Handle.

Lemma coalesce_nullish (v d : Value) : nullish v → v ?? d = d.
Proof. by intros [-> | ->]. Qed.

Lemma coalesce_value (v d : Value) : ¬ nullish v → v ?? d = v.
Proof. unfold nullish. destruct v; cbn; tauto. Qed.

(** What is written against [createContext], [use] and [run] binds no
    storage but those it creates. *)
Lemma writesAbove_bind {A B : Type} lo (m : Async A) (f : A → Async B) :
  writesAbove lo m → (∀ a, writesAbove lo (f a)) → writesAbove lo (bind m f).
Proof.
  revert f.
  induction m as [A a | A e | A k IH | A s v k IH | A s k IH
                 | A s v fn IHfn k IHk | A k IH];
    intros f Hm Hf; cbn [writesAbove bind] in *.
  - apply Hf.
  - done.
  - intros s Hs. by apply IH; [apply Hm|].
  - destruct Hm as [Hs Hk]. by split; [|apply IH].
  - intros x. by apply IH.
  - destruct Hm as [Hfn Hk]. split; [done|]. intros x. by apply IHk.
  - by apply IH.
Qed.

Lemma writesAbove_createContext {B : Type} lo initialValue
    (f : ContextHandle → Async B) :
  (∀ storage, lo ≤ storage → writesAbove lo (f (handleOf storage initialValue)))
  → writesAbove lo (let* handle := createContext initialValue in f handle).
Proof. intros Hf storage Hlo. by split; [|apply Hf]. Qed.

Lemma writesAbove_use lo storage initialValue :
  writesAbove lo (use (handleOf storage initialValue)).
Proof. done. Qed.

Lemma writesAbove_run lo storage initialValue value (fn : Async Value) :
  writesAbove lo fn →
  writesAbove lo (ContextHandle.run (handleOf storage initialValue) value fn).
Proof. by split. Qed.

(** ** The test suite

    The scenarios of [src/index.test.ts], with the results it expects. *)

Example test_run_with_a_context_value :
  result (exec (let* handle := createContext (VStr "initial") in
                ContextHandle.run handle (VStr "test") (use handle)) ∅ 0)
  = Fulfilled (VStr "test").
Proof. reflexivity. Qed.

Example test_initial_value :
  result (exec (let* handle := createContext (VStr "initial") in use handle)
            ∅ 0)
  = Fulfilled (VStr "initial").
Proof. reflexivity. Qed.

Example test_nested_context_values :
  result (exec (let* handle := createContext (VStr "initial") in
                ContextHandle.run handle (VStr "outer")
                  (nested handle (VStr "inner"))) ∅ 0)
  = Fulfilled (VArr [VStr "outer"; VStr "inner"; VStr "outer"]).
Proof. reflexivity. Qed.

(** The three calls of the test of parallel operations, on a handle
    created with [0]; the first call settles last in one order of the
    turns and first in the other. *)
Example test_parallel_operations :
  let handle := handleOf 0 (VNum 0) in
  let started :=
    launch [readAfter handle (VNum 1) 2; readAfter handle (VNum 2) 1;
            readAfter handle (VNum 3) 0] (<[0:=VNum 0]> ∅) 1 in
  let loop := {| pending := started.1.1; nextStorage := started.2 |} in
  let results := [Settled (Fulfilled (VNum 1)); Settled (Fulfilled (VNum 2));
                  Settled (Fulfilled (VNum 3))] in
  pending (schedule [2; 1; 1; 0; 0; 0] loop) = results
  ∧ pending (schedule [0; 0; 1; 0; 2; 1] loop) = results.
Proof. split; reflexivity. Qed.

Example test_across_async_boundaries :
  result (exec (let* handle := createContext (VStr "initial") in
                ContextHandle.run handle (VStr "test")
                  (acrossBoundaries handle)) ∅ 0)
  = Fulfilled (VArr [VStr "test"; VStr "test";
                     VArr [VStr "test"; VStr "test"]]).
Proof. reflexivity. Qed.

Example test_multiple_handles :
  result (exec (let* stringHandle := createContext (VStr "default-string") in
                let* numberHandle := createContext (VNum 0) in
                let* objectHandle := createContext (VRef 0) in
                ContextHandle.run stringHandle (VStr "hello")
                  (ContextHandle.run numberHandle (VNum 42)
                     (ContextHandle.run objectHandle (VRef 1)
                        (let* string := use stringHandle in
                         let* number := use numberHandle in
                         let* object := use objectHandle in
                         Return (VArr [string; number; object]))))) ∅ 0)
  = Fulfilled (VArr [VStr "hello"; VNum 42; VRef 1]).
Proof. reflexivity. Qed.

Example test_errors :
  let handle := handleOf 0 (VStr "initial") in
  let r := exec (ContextHandle.run handle (VStr "error-context")
                   (throwing handle (VStr "Test error")))
             (<[0:=VStr "initial"]> ∅) 1 in
  result r = Rejected (VStr "Test error")
  ∧ result (exec (use handle) (frameAfter r) (nextAfter r))
    = Fulfilled (VStr "initial").
Proof. split; reflexivity. Qed.

Example test_runWithContext :
  result (exec (let* handle := createContext (VStr "initial") in
                runWithContext handle (VStr "utility-value") (use handle))
            ∅ 0)
  = Fulfilled (VStr "utility-value").
Proof. reflexivity. Qed.

(** ** Concurrent calls on one handle *)

Section FanOut.
Variables (storage : Storage) (initialValue : Value).
Local Abbreviation handle := (handleOf storage initialValue).
Implicit Types (F : Frame) (n : nat) (v : Value) (T : Task Value).

Lemma start_delay_use d G n :
  start (delay d (use handle)) G n =
  (match d with
   | O => Settled (Fulfilled (getStore G storage ?? initialValue))
   | S d' => Resumable G (delay d' (use handle))
   end, G, n).
Proof. by destruct d. Qed.

Lemma allocFree_readAfter v d : allocFree (readAfter handle v d).
Proof. split; [|done]. induction d as [|d IH]; [done|apply IH]. Qed.

(** The call hands the frame back with the storage as it was, and leaves
    the task of [run], waiting for the operation. *)
Lemma start_readAfter v d F n :
  start (readAfter handle v d) F n =
  let F2 := <[storage:=getStore F storage]> (<[storage:=v]> F) in
  (Awaiting F2 (start (delay d (use handle)) (<[storage:=v]> F) n).1.1 Return,
   F2, n).
Proof.
  unfold readAfter, handle. cbn [ContextHandle.run handleOf].
  unfold AsyncLocalStorage.run. cbn [start]. fold handle.
  by rewrite start_delay_use.
Qed.

(** The operation reads in the frame it was started in, after one turn
    per timer; the task of [run] needs one more turn to pass the read on. *)
Lemma ticks_reader d : ∀ Fp G n,
  ticks (S d) (Awaiting Fp (start (delay d (use handle)) G n).1.1 Return) n
  = (Settled (Fulfilled (getStore G storage ?? initialValue)), n).
Proof.
  induction d as [|d IH]; intros Fp G n; [done|].
  rewrite ticks_S. specialize (IH Fp G n).
  rewrite start_delay_use in *. cbn [fst snd tick] in *.
  by rewrite start_delay_use.
Qed.

Lemma ticks_readAfter v d F n :
  (ticks (S d) (start (readAfter handle v d) F n).1.1 n).1
  = Settled (Fulfilled (v ?? initialValue)).
Proof.
  rewrite start_readAfter. cbn [fst snd].
  by rewrite ticks_reader, getStore_insert_eq.
Qed.

End FanOut.

(** ** Concurrent runs of any operations *)

Lemma sameStores_insert F G (s : Storage) (v : Value) :
  sameStores F G → sameStores (<[s:=v]> F) (<[s:=v]> G).
Proof.
  intros HFG s'. destruct (decide (s = s')) as [->|Hne]; stores; [done|].
  apply HFG.
Qed.

(** How a computation settles depends on the frame only through the
    stores it holds. *)
Lemma exec_sameStores {A : Type} (t : Async A) : ∀ F G n,
  sameStores F G →
  result (exec t F n) = result (exec t G n)
  ∧ nextAfter (exec t F n) = nextAfter (exec t G n)
  ∧ sameStores (frameAfter (exec t F n)) (frameAfter (exec t G n)).
Proof.
  unfold result, nextAfter, frameAfter.
  induction t as [A a | A e | A k IH | A s v k IH | A s k IH
                 | A s v fn IHfn k IHk | A k IH]; intros F G n HFG;
    cbn [exec].
  - done.
  - done.
  - by apply IH.
  - by apply IH, sameStores_insert.
  - rewrite (HFG s). by apply IH.
  - rewrite (HFG s).
    destruct (IHfn (<[s:=v]> F) (<[s:=v]> G) n (sameStores_insert _ _ s v HFG))
      as (Ho & Hn & HF1).
    destruct (exec fn (<[s:=v]> F) n) as [[ob F1] n1].
    destruct (exec fn (<[s:=v]> G) n) as [[ob' G1] n1'].
    cbn [fst snd] in *. subst ob' n1'.
    pose proof (sameStores_insert _ _ s (getStore G s) HF1) as HF2.
    destruct ob as [b|e]; [|done].
    destruct (IHk b _ _ n1 HF2) as (Ho' & Hn' & _).
    destruct (exec (k b) (<[s:=getStore G s]> F1) n1) as [[o F3] n2].
    destruct (exec (k b) (<[s:=getStore G s]> G1) n1) as [[o' G3] n2'].
    cbn [fst snd] in *. by subst.
  - destruct (IH F G n HFG) as (Ho & Hn & _).
    destruct (exec k F n) as [[o F'] n'], (exec k G n) as [[o' G'] n''].
    cbn [fst snd] in *. by subst.
Qed.

Lemma bindsNothing_allocFree {A : Type} (t : Async A) :
  bindsNothing t → allocFree t.
Proof.
  induction t as [A a | A e | A k IH | A s v k IH | A s k IH
                 | A s v fn IHfn k IHk | A k IH];
    cbn [bindsNothing allocFree]; try done.
  - intros Hk x. by apply IH.
  - intros [Hfn Hk]. split; [by apply IHfn|]. intros x. by apply IHk.
Qed.

(** A computation that binds nothing hands the frame back with every
    store as it was. *)
Lemma exec_bindsNothing {A : Type} (t : Async A) : ∀ F n,
  bindsNothing t → sameStores (frameAfter (exec t F n)) F.
Proof.
  unfold frameAfter.
  induction t as [A a | A e | A k IH | A s v k IH | A s k IH
                 | A s v fn IHfn k IHk | A k IH]; intros F n Ht;
    cbn [bindsNothing exec] in *.
  - done.
  - done.
  - done.
  - done.
  - by apply IH.
  - destruct Ht as [Hfn Hk]. specialize (IHfn (<[s:=v]> F) n Hfn).
    destruct (exec fn (<[s:=v]> F) n) as [[ob F1] n1]. cbn [fst snd] in *.
    assert (sameStores (<[s:=getStore F s]> F1) F) as Hback.
    { intros s'. destruct (decide (s = s')) as [->|Hne]; stores; [done|].
      rewrite IHfn. by stores. }
    destruct ob as [b|e]; [|done].
    by destruct (exec (k b) (<[s:=getStore F s]> F1) n1) as [[o F3] n2].
  - by destruct (exec k F n) as [[o F'] n'].
Qed.

Lemma launch_bindsNothing calls : ∀ F n,
  Forall bindsNothing calls → sameStores (launch calls F n).1.2 F.
Proof.
  induction calls as [|c calls IH]; intros F n Hcalls; [done|].
  apply Forall_cons in Hcalls as [Hc Hcalls]. cbn [launch].
  destruct (exec_adequate c F n) as [Hframe _].
  pose proof (exec_bindsNothing c F n Hc) as HF1. rewrite <- Hframe in HF1.
  destruct (start c F n) as [[T F1] n1]. cbn [fst snd] in *.
  specialize (IH F1 n1 Hcalls).
  destruct (launch calls F1 n1) as [[Ts F2] n2]. cbn [fst snd] in *.
  intros s. by rewrite IH.
Qed.

(** ** The claims *)

Section Claims.
Implicit Types (storage : Storage) (initialValue value : Value).
Implicit Types (F : Frame) (n : nat) (fn : Async Value).

(** C1 (as amended).  For every handle and every value V that is neither
    null nor undefined, [run(V, () => use(handle))] yields V. *)
Theorem run_then_use_yields_bound_value storage initialValue value F n :
  value ≠ VNull → value ≠ VUndefined →
  result (exec (ContextHandle.run (handleOf storage initialValue) value
                  (use (handleOf storage initialValue))) F n)
  = Fulfilled value.
Proof.
  intros Hnull Hundef. rewrite exec_run_use.
  f_equal. apply coalesce_value. intros [?|?]; contradiction.
Qed.

Lemma run_then_use_yields_bound_value_witness :
  result (exec (ContextHandle.run (handleOf 0 (VStr "initial")) (VStr "test")
                  (use (handleOf 0 (VStr "initial"))))
            (<[0:=VStr "initial"]> ∅) 1)
  = Fulfilled (VStr "test").
Proof.
  apply (run_then_use_yields_bound_value 0 (VStr "initial") (VStr "test"));
    discriminate.
Defined.

(** C1 as stated fails: on a handle whose default is ['initial'],
    [run(null, () => use(handle))] yields ['initial'], not [null]. *)
Lemma run_then_use_null_counterexample :
  ¬ (∀ storage initialValue value F n,
       result (exec (ContextHandle.run (handleOf storage initialValue) value
                       (use (handleOf storage initialValue))) F n)
       = Fulfilled value).
Proof.
  intros H.
  specialize (H 0 (VStr "initial") VNull (<[0:=VStr "initial"]> ∅) 1).
  rewrite exec_run_use in H. discriminate H.
Qed.

(** C2 (as amended).  After [run(V, operation)] completes, whether the
    operation was fulfilled or rejected, the handle's storage holds in the
    calling extent exactly the value that was bound before the call, and a
    read of the handle returns exactly what it returned before the call:
    that value, or the handle's initial value when that value is null or
    undefined. *)
Theorem run_restores_previous_binding storage initialValue value fn F n :
  let handle := handleOf storage initialValue in
  let r := exec (ContextHandle.run handle value fn) F n in
  result r = result (exec fn (<[storage:=value]> F) n)
  ∧ getStore (frameAfter r) storage = getStore F storage
  ∧ result (exec (use handle) (frameAfter r) (nextAfter r))
    = result (exec (use handle) F n)
  ∧ result (exec (use handle) (frameAfter r) (nextAfter r))
    = Fulfilled (getStore F storage ?? initialValue).
Proof.
  intros handle r. subst r handle. rewrite exec_run.
  unfold frameAfter, nextAfter, result. cbn [fst snd].
  rewrite !exec_use. cbn [fst snd]. by rewrite getStore_insert_eq.
Qed.

(** C2 as stated fails: in an extent where [null] is bound (inside
    [run(null, ...)]) on a handle whose default is ['initial'], a read
    after an inner [run('x', ...)] has completed returns ['initial'], not
    the [null] that was bound before that call. *)
Lemma run_restores_null_counterexample :
  ¬ (∀ storage initialValue value fn F n bound,
       F !! storage = Some bound →
       let handle := handleOf storage initialValue in
       let r := exec (ContextHandle.run handle value fn) F n in
       result (exec (use handle) (frameAfter r) (nextAfter r))
       = Fulfilled bound).
Proof.
  intros H.
  specialize (H 0 (VStr "initial") (VStr "x") (Return VUndefined)
                (<[0:=VNull]> ∅) 1 VNull (lookup_insert_eq _ _ _)).
  discriminate H.
Qed.

(** C3.  If the operation is rejected with E, [run] is rejected with the
    same E; the binding is already put back when [run] hands back its
    promise, before the rejection reaches the caller, and a later read
    returns what it returned before the call. *)
Theorem run_rethrows_after_restoring storage initialValue value fn F n e :
  result (exec fn (<[storage:=value]> F) n) = Rejected e →
  let handle := handleOf storage initialValue in
  let r := exec (ContextHandle.run handle value fn) F n in
  result r = Rejected e
  ∧ (∃ F2 child n1,
        start (ContextHandle.run handle value fn) F n
        = (Awaiting F2 child Return, F2, n1)
        ∧ getStore F2 storage = getStore F storage)
  ∧ getStore (frameAfter r) storage = getStore F storage
  ∧ result (exec (use handle) (frameAfter r) (nextAfter r))
    = result (exec (use handle) F n).
Proof.
  intros Hfn handle r. subst r handle. rewrite exec_run. cbv zeta.
  rewrite Hfn. unfold frameAfter, nextAfter, result. cbn [fst snd].
  rewrite !exec_use. cbn [fst snd]. rewrite getStore_insert_eq.
  split; [done|]. split; [|done].
  destruct (start fn (<[storage:=value]> F) n) as [[child F1] n1] eqn:Hs.
  exists (<[storage:=getStore F storage]> F1), child, n1.
  cbn. rewrite Hs. by rewrite getStore_insert_eq.
Qed.

Lemma run_rethrows_after_restoring_witness :
  let handle := handleOf 0 (VStr "initial") in
  let F : Frame := <[0:=VStr "initial"]> ∅ in
  let r := exec (ContextHandle.run handle (VStr "error-context")
                   (Throw (VStr "Test error"))) F 1 in
  result r = Rejected (VStr "Test error")
  ∧ (∃ F2 child n1,
        start (ContextHandle.run handle (VStr "error-context")
                 (Throw (VStr "Test error"))) F 1
        = (Awaiting F2 child Return, F2, n1)
        ∧ getStore F2 0 = getStore F 0)
  ∧ getStore (frameAfter r) 0 = getStore F 0
  ∧ result (exec (use handle) (frameAfter r) (nextAfter r))
    = result (exec (use handle) F 1).
Proof.
  apply (run_rethrows_after_restoring 0 (VStr "initial")
           (VStr "error-context") (Throw (VStr "Test error"))).
  reflexivity.
Defined.

Lemma exec_nested storage initialValue a b F n :
  result (exec (ContextHandle.run (handleOf storage initialValue) a
                  (nested (handleOf storage initialValue) b)) F n)
  = Fulfilled (VArr [a ?? initialValue; b ?? initialValue; a ?? initialValue]).
Proof.
  rewrite exec_run. cbn. by rewrite !getStore_insert_eq.
Qed.

(** C4 (as amended).  For all values A and B, A ≠ B, neither of them null
    or undefined: inside [run(A, ...)] a read yields A, inside an inner
    [run(B, ...)] a read yields B, and after the inner [run] a read in the
    outer extent yields A again. *)
Theorem nested_runs_are_strictly_nested storage initialValue a b F n :
  a ≠ b → ¬ nullish a → ¬ nullish b →
  result (exec (ContextHandle.run (handleOf storage initialValue) a
                  (nested (handleOf storage initialValue) b)) F n)
  = Fulfilled (VArr [a; b; a]).
Proof.
  intros _ Ha Hb. rewrite exec_nested.
  by rewrite !(coalesce_value a), (coalesce_value b).
Qed.

Lemma nested_runs_are_strictly_nested_witness :
  result (exec (ContextHandle.run (handleOf 0 (VStr "initial")) (VStr "outer")
                  (nested (handleOf 0 (VStr "initial")) (VStr "inner")))
            (<[0:=VStr "initial"]> ∅) 1)
  = Fulfilled (VArr [VStr "outer"; VStr "inner"; VStr "outer"]).
Proof.
  apply (nested_runs_are_strictly_nested 0 (VStr "initial")
           (VStr "outer") (VStr "inner"));
    [discriminate | intros [?|?]; discriminate ..].
Defined.

(** C4 as stated fails: with A = null and B = ['inner'] on a handle whose
    default is ['initial'], the two reads of the outer extent yield
    ['initial'], not A. *)
Lemma nested_runs_null_counterexample :
  ¬ (∀ storage initialValue a b F n,
       a ≠ b →
       result (exec (ContextHandle.run (handleOf storage initialValue) a
                       (nested (handleOf storage initialValue) b)) F n)
       = Fulfilled (VArr [a; b; a])).
Proof.
  intros H.
  specialize (H 0 (VStr "initial") VNull (VStr "inner")
                (<[0:=VStr "initial"]> ∅) 1 ltac:(discriminate)).
  rewrite exec_nested in H. discriminate H.
Qed.

(** C5.  For every default D, a read of the handle that
    [createContext(D)] has just returned, outside any [run], returns D:
    creation has seeded the storage with D.  (A read in an extent the seed
    has not reached returns D as well.) *)
Theorem fresh_handle_reads_default initialValue F n :
  result (exec (let* handle := createContext initialValue in use handle) F n)
  = Fulfilled initialValue
  ∧ (let r := exec (createContext initialValue) F n in
     result r = Fulfilled (handleOf n initialValue)
     ∧ frameAfter r !! n = Some initialValue
     ∧ result (exec (use (handleOf n initialValue))
                 (frameAfter r) (nextAfter r))
       = Fulfilled initialValue)
  ∧ result (exec (use (handleOf n initialValue)) (delete n F) (S n))
    = Fulfilled initialValue.
Proof.
  cbn. unfold getStore. rewrite lookup_delete_eq.
  split_and!; rewrite ?lookup_insert_eq; try done; by destruct initialValue.
Qed.

(** C6.  The function [runWithContext(handle, value)] returns, applied to
    an operation, is [handle.run(value, operation)]: the same computation,
    hence the same task, the same result and the same frames. *)
Theorem runWithContext_is_run (handle : ContextHandle) value fn :
  runWithContext handle value fn = ContextHandle.run handle value fn
  ∧ (∀ F n, exec (runWithContext handle value fn) F n
            = exec (ContextHandle.run handle value fn) F n)
  ∧ (∀ F n, start (runWithContext handle value fn) F n
            = start (ContextHandle.run handle value fn) F n).
Proof. by split_and!. Qed.

(** C7.  Handles from separate [createContext] calls own separate
    storages, so a [run] on one leaves the other alone: a read of the
    other handle inside the [run] returns what it returned outside, and
    when the operation itself leaves the other storage as it finds it, so
    does the [run], and a read after it returns the same.  This holds for
    two handles created one after the other with any defaults, equal ones
    included. *)
Theorem distinct_handles_do_not_interfere
    storage1 storage2 default1 default2 value fn F n :
  storage1 ≠ storage2 →
  getStore (frameAfter (exec fn (<[storage1:=value]> F) n)) storage2
  = getStore (<[storage1:=value]> F) storage2 →
  let handle1 := handleOf storage1 default1 in
  let handle2 := handleOf storage2 default2 in
  let r := exec (ContextHandle.run handle1 value fn) F n in
  result (exec (ContextHandle.run handle1 value (use handle2)) F n)
  = result (exec (use handle2) F n)
  ∧ getStore (frameAfter r) storage2 = getStore F storage2
  ∧ result (exec (use handle2) (frameAfter r) (nextAfter r))
    = result (exec (use handle2) F n)
  ∧ result (exec (twoHandles default1 default2 value) F n)
    = Fulfilled (VArr [VArr [default2; default2; default2];
                       VArr [default1; default1; default1]]).
Proof.
  intros Hne Hfn handle1 handle2 r. subst r handle1 handle2.
  rewrite !exec_run. cbv zeta.
  unfold frameAfter, nextAfter, result in *. cbn [fst snd].
  rewrite !exec_use. cbn [fst snd].
  rewrite !getStore_insert_ne by done. rewrite Hfn.
  rewrite !getStore_insert_ne by done.
  split_and!; try done.
  cbn. stores. by destruct default1, default2.
Qed.

Lemma distinct_handles_do_not_interfere_witness :
  let F : Frame := <[1:=VStr "same"]> (<[0:=VStr "same"]> ∅) in
  let handle1 := handleOf 0 (VStr "same") in
  let handle2 := handleOf 1 (VStr "same") in
  let r := exec (ContextHandle.run handle1 (VStr "hello") (use handle1)) F 2 in
  result (exec (ContextHandle.run handle1 (VStr "hello") (use handle2)) F 2)
  = result (exec (use handle2) F 2)
  ∧ getStore (frameAfter r) 1 = getStore F 1
  ∧ result (exec (use handle2) (frameAfter r) (nextAfter r))
    = result (exec (use handle2) F 2)
  ∧ result (exec (twoHandles (VStr "same") (VStr "same") (VStr "hello")) F 2)
    = Fulfilled (VArr [VArr [VStr "same"; VStr "same"; VStr "same"];
                       VArr [VStr "same"; VStr "same"; VStr "same"]]).
Proof.
  apply (distinct_handles_do_not_interfere 0 1 (VStr "same") (VStr "same")
           (VStr "hello") (use (handleOf 0 (VStr "same")))).
  - lia.
  - reflexivity.
Defined.

(** C8.  [createContext] is fulfilled with a handle for every initial
    value; [use], as a method and as a function, is fulfilled with a value
    for every handle and in every state, on the spot, and leaves the
    frame and the storages as they were. *)
Theorem createContext_and_use_are_total storage initialValue F n :
  (∃ handle F',
      start (createContext initialValue) F n
      = (Settled (Fulfilled handle), F', S n)
      ∧ exec (createContext initialValue) F n = (Fulfilled handle, F', S n))
  ∧ (∃ v,
        start (use (handleOf storage initialValue)) F n
        = (Settled (Fulfilled v), F, n)
        ∧ exec (use (handleOf storage initialValue)) F n = (Fulfilled v, F, n)
        ∧ exec (ContextHandle.use (handleOf storage initialValue)) F n
          = (Fulfilled v, F, n)).
Proof.
  split.
  - by exists (handleOf n initialValue), (<[n:=initialValue]> F).
  - by exists (getStore F storage ?? initialValue).
Qed.

(** C10.  When the value bound by [run] is null or undefined, the read
    of the handle inside that extent returns the handle's initial value
    rather than the bound value; for every other value V the read inside
    [run(V, ...)] returns V itself.  This is the read that [use] performs
    in the frame where the value is bound, and it is what the rest of the
    operation goes on with; where no store is bound at all the read
    returns the initial value too. *)
Theorem nullish_binding_reads_initial_value
    storage initialValue value (k : Value → Async Value) F n :
  let handle := handleOf storage initialValue in
  let read := result (exec (ContextHandle.run handle value (use handle)) F n) in
  let bound : Frame := <[storage:=value]> F in
  let goesOn :=
    result (exec (ContextHandle.run handle value
                    (let* context := use handle in k context)) F n) in
  (nullish value →
     read = Fulfilled initialValue
     ∧ exec (use handle) bound n = (Fulfilled initialValue, bound, n)
     ∧ goesOn = result (exec (k initialValue) bound n))
  ∧ (¬ nullish value →
       read = Fulfilled value
       ∧ exec (use handle) bound n = (Fulfilled value, bound, n)
       ∧ goesOn = result (exec (k value) bound n))
  ∧ result (exec (use handle) (delete storage F) n) = Fulfilled initialValue.
Proof.
  intros handle read bound goesOn. subst read goesOn handle bound.
  rewrite exec_run_use, !exec_run, !exec_use. cbv zeta.
  unfold result at 1 3. cbn [fst exec bind AsyncLocalStorage.getStore use
                              ContextHandle.use handleOf].
  rewrite getStore_insert_eq. split_and!.
  - intros H. by rewrite !(coalesce_nullish value initialValue H).
  - intros H. by rewrite !(coalesce_value value initialValue H).
  - unfold result, getStore. cbn [fst]. by rewrite lookup_delete_eq.
Qed.

Lemma nullish_binding_reads_initial_value_witness :
  let handle := handleOf 0 (VStr "initial") in
  let F : Frame := <[0:=VStr "initial"]> ∅ in
  let k context := Return (VArr [context; VStr "read"]) in
  (result (exec (ContextHandle.run handle VNull (use handle)) F 1)
   = Fulfilled (VStr "initial")
   ∧ exec (use handle) (<[0:=VNull]> F) 1
     = (Fulfilled (VStr "initial"), <[0:=VNull]> F, 1)
   ∧ result (exec (ContextHandle.run handle VNull
                     (let* context := use handle in k context)) F 1)
     = Fulfilled (VArr [VStr "initial"; VStr "read"]))
  ∧ (result (exec (ContextHandle.run handle VUndefined (use handle)) F 1)
     = Fulfilled (VStr "initial")
     ∧ result (exec (ContextHandle.run handle VUndefined
                       (let* context := use handle in k context)) F 1)
       = Fulfilled (VArr [VStr "initial"; VStr "read"]))
  ∧ (result (exec (ContextHandle.run handle (VNum 42) (use handle)) F 1)
     = Fulfilled (VNum 42)
     ∧ exec (use handle) (<[0:=VNum 42]> F) 1
       = (Fulfilled (VNum 42), <[0:=VNum 42]> F, 1)
     ∧ result (exec (ContextHandle.run handle (VNum 42)
                       (let* context := use handle in k context)) F 1)
       = Fulfilled (VArr [VNum 42; VStr "read"])).
Proof.
  split; [|split].
  - apply (nullish_binding_reads_initial_value 0 (VStr "initial") VNull
             (λ context, Return (VArr [context; VStr "read"]))).
    by left.
  - pose proof (nullish_binding_reads_initial_value 0 (VStr "initial")
                  VUndefined (λ context, Return (VArr [context; VStr "read"]))
                  (<[0:=VStr "initial"]> ∅) 1) as H.
    cbv zeta in H. destruct H as [H _]. destruct (H (or_intror eq_refl))
      as (Hread & _ & Hon). split; [exact Hread | exact Hon].
  - apply (nullish_binding_reads_initial_value 0 (VStr "initial") (VNum 42)
             (λ context, Return (VArr [context; VStr "read"]))).
    intros [?|?]; discriminate.
Defined.

(** C9.  N concurrent calls [run(i, op_i)], for any operations that
    read, run and await, under any order of the turns of the event loop:

    - the caller finds every store as it was and reads what it read
      before: the bindings of its children never show to it;
    - a call that has settled has settled as its operation does alone in
      the caller's frame with [i] bound, and it does settle, given its
      turns: what the siblings bind and when they run never shows to it;
    - so a read of the handle in extent [i], after any number of timers,
      yields [i]; a read there of another handle yields what the caller
      reads, inherited; and an operation that rebinds the handle for an
      inner extent reads [i] before and after it;
    - a call that reads the handle after [d] timers is fulfilled with [i]
      once it has had [d + 1] turns, and when all calls are such reads
      and have had their turns the results are [[0, ..., N-1]]. *)
Theorem concurrent_runs_are_isolated
    storage initialValue (ops : list (Async Value)) (order : list nat) F n :
  Forall bindsNothing ops →
  let handle := handleOf storage initialValue in
  let started := launch (fanOut handle ops) F n in
  let loop order :=
    schedule order {| pending := started.1.1; nextStorage := started.2 |} in
  let alone (i : nat) op :=
    result (exec op (<[storage:=VNum (Z.of_nat i)]> F) n) in
  (sameStores started.1.2 F
   ∧ result (exec (use handle) started.1.2 started.2)
     = result (exec (use handle) F n))
  ∧ length (pending (loop order)) = length ops
  ∧ (∀ i op o, ops !! i = Some op →
       pending (loop order) !! i = Some (Settled o) → o = alone i op)
  ∧ (∀ i op, ops !! i = Some op →
       ∃ fuel, ∀ order', fuel ≤ count_occ Nat.eq_dec order' i →
         pending (loop order') !! i = Some (Settled (alone i op)))
  ∧ (∀ i d, alone i (delay d (use handle)) = Fulfilled (VNum (Z.of_nat i)))
  ∧ (∀ i d storage' initialValue', storage' ≠ storage →
       alone i (delay d (use (handleOf storage' initialValue')))
       = result (exec (use (handleOf storage' initialValue')) F n))
  ∧ (∀ i inner,
       alone i (nested handle inner)
       = Fulfilled (VArr [VNum (Z.of_nat i); inner ?? initialValue;
                          VNum (Z.of_nat i)]))
  ∧ (∀ i d, ops !! i = Some (delay d (use handle)) →
       d < count_occ Nat.eq_dec order i →
       pending (loop order) !! i
       = Some (Settled (Fulfilled (VNum (Z.of_nat i)))))
  ∧ ((∀ i op, ops !! i = Some op →
        ∃ d, op = delay d (use handle) ∧ d < count_occ Nat.eq_dec order i) →
     pending (loop order)
     = imap (λ i _, Settled (Fulfilled (VNum (Z.of_nat i)))) ops).
Proof.
  intros Hops handle started loop alone.
  set (calls := fanOut handle ops) in *.
  assert (∀ i, calls !! i
               = (λ op, ContextHandle.run handle (VNum (Z.of_nat i)) op)
                 <$> ops !! i) as Hcall.
  { intros i. unfold calls, fanOut. by rewrite list_lookup_imap. }
  assert (Forall bindsNothing calls) as Hcalls.
  { apply Forall_lookup_2. intros i c. rewrite Hcall.
    destruct (ops !! i) as [op|] eqn:Hop; intros [= <-].
    split; [|done]. by eapply (Forall_lookup_1 _ _ _ _ Hops). }
  assert (Forall allocFree calls) as Hfree.
  { eapply Forall_impl; [exact Hcalls|]. apply @bindsNothing_allocFree. }
  destruct (launch_allocFree calls F n Hfree) as (Hn & HTs & Hlen & Hlookup).
  pose proof (launch_bindsNothing calls F n Hcalls) as Hcaller.
  fold started in Hn, HTs, Hlen, Hlookup, Hcaller.
  replace (length calls) with (length ops) in Hlen
    by (unfold calls, fanOut; by rewrite length_imap).
  assert (∀ order', pending (loop order')
            = imap (λ i T, (ticks (count_occ Nat.eq_dec order' i) T n).1)
                started.1.1) as Hpending.
  { intros order'. unfold loop.
    destruct (schedule_isolated order'
                (Build_Loop started.1.1 started.2) HTs) as [_ ->].
    cbn [pending nextStorage]. by rewrite Hn. }
  assert (∀ i op, ops !! i = Some op →
            (∀ order' o, pending (loop order') !! i = Some (Settled o) →
                         o = alone i op)
            ∧ ∃ fuel, ∀ order', fuel ≤ count_occ Nat.eq_dec order' i →
                pending (loop order') !! i = Some (Settled (alone i op)))
    as Hany.
  { intros i op Hop.
    assert (calls !! i
            = Some (ContextHandle.run handle (VNum (Z.of_nat i)) op)) as Hc
      by by rewrite Hcall, Hop.
    destruct (launched_settles_as_alone calls F n i _ Hfree Hc)
      as [Hsafe Hlive].
    assert (result (exec (ContextHandle.run handle (VNum (Z.of_nat i)) op)
                      (launch (take i calls) F n).1.2 n)
            = alone i op) as Halone.
    { unfold handle. rewrite exec_run. cbv zeta. unfold result at 1.
      cbn [fst]. apply exec_sameStores, sameStores_insert, launch_bindsNothing.
      by apply Forall_take. }
    rewrite Halone in Hsafe, Hlive. by split. }
  assert (∀ i d, alone i (delay d (use handle))
                 = Fulfilled (VNum (Z.of_nat i))) as Hread.
  { intros i d. unfold alone, handle. rewrite exec_delay, exec_use.
    cbn. by stores. }
  assert (∀ i d, ops !! i = Some (delay d (use handle)) →
            d < count_occ Nat.eq_dec order i →
            pending (loop order) !! i
            = Some (Settled (Fulfilled (VNum (Z.of_nat i))))) as Hturns.
  { intros i d Hop Hd. rewrite Hpending, list_lookup_imap.
    rewrite (Hlookup i (ContextHandle.run handle (VNum (Z.of_nat i))
                          (delay d (use handle))))
      by by rewrite Hcall, Hop.
    cbn. f_equal. eapply ticks_ge; [|exact Hd].
    apply (ticks_readAfter storage initialValue (VNum (Z.of_nat i))). }
  split_and!.
  - exact Hcaller.
  - unfold handle. rewrite !exec_use. unfold result. cbn [fst].
    by rewrite (Hcaller storage).
  - by rewrite Hpending, length_imap.
  - intros i op o Hop. by apply (Hany i op Hop).
  - intros i op Hop. by apply (Hany i op Hop).
  - exact Hread.
  - intros i d storage' initialValue' Hne. unfold alone.
    rewrite exec_delay, !exec_use. cbn. by stores.
  - intros i inner. unfold alone, handle.
    pose proof (exec_nested storage initialValue (VNum (Z.of_nat i)) inner F n)
      as Hnested.
    rewrite exec_run in Hnested. cbv zeta in Hnested.
    unfold result at 1 in Hnested. cbn [fst] in Hnested. exact Hnested.
  - exact Hturns.
  - intros Hreaders. apply list_eq. intros i. rewrite list_lookup_imap.
    destruct (ops !! i) as [op|] eqn:Hop; cbn.
    + destruct (Hreaders i op Hop) as (d & -> & Hd). by apply (Hturns i d).
    + apply lookup_ge_None. rewrite Hpending, length_imap, Hlen.
      by apply lookup_ge_None.
Qed.

Lemma concurrent_runs_are_isolated_witness :
  let handle := handleOf 0 (VNum 0) in
  let other := handleOf 1 (VStr "tenant") in
  let F : Frame := <[1:=VStr "tenant"]> (<[0:=VNum 0]> ∅) in
  let ops := [delay 2 (use handle); delay 1 (use other);
              nested handle (VStr "inner"); throwing handle (VStr "stop")] in
  let started := launch (fanOut handle ops) F 2 in
  let loop order :=
    schedule order {| pending := started.1.1; nextStorage := started.2 |} in
  let alone (i : nat) op :=
    result (exec op (<[0:=VNum (Z.of_nat i)]> F) 2) in
  (sameStores started.1.2 F
   ∧ result (exec (use handle) started.1.2 started.2)
     = result (exec (use handle) F 2))
  ∧ length (pending (loop [3; 2; 0; 1; 2; 0; 1; 2; 0])) = 4
  ∧ (∀ i op o, ops !! i = Some op →
       pending (loop [3; 2; 0; 1; 2; 0; 1; 2; 0]) !! i = Some (Settled o) →
       o = alone i op)
  ∧ (∀ i op, ops !! i = Some op →
       ∃ fuel, ∀ order', fuel ≤ count_occ Nat.eq_dec order' i →
         pending (loop order') !! i = Some (Settled (alone i op)))
  ∧ (∀ i d, alone i (delay d (use handle)) = Fulfilled (VNum (Z.of_nat i)))
  ∧ (∀ i d storage' initialValue', storage' ≠ 0 →
       alone i (delay d (use (handleOf storage' initialValue')))
       = result (exec (use (handleOf storage' initialValue')) F 2))
  ∧ (∀ i inner,
       alone i (nested handle inner)
       = Fulfilled (VArr [VNum (Z.of_nat i); inner ?? VNum 0;
                          VNum (Z.of_nat i)]))
  ∧ (∀ i d, ops !! i = Some (delay d (use handle)) →
       d < count_occ Nat.eq_dec [3; 2; 0; 1; 2; 0; 1; 2; 0] i →
       pending (loop [3; 2; 0; 1; 2; 0; 1; 2; 0]) !! i
       = Some (Settled (Fulfilled (VNum (Z.of_nat i)))))
  ∧ ((∀ i op, ops !! i = Some op →
        ∃ d, op = delay d (use handle)
             ∧ d < count_occ Nat.eq_dec [3; 2; 0; 1; 2; 0; 1; 2; 0] i) →
     pending (loop [3; 2; 0; 1; 2; 0; 1; 2; 0])
     = imap (λ i _, Settled (Fulfilled (VNum (Z.of_nat i)))) ops).
Proof.
  apply (concurrent_runs_are_isolated 0 (VNum 0)
           [delay 2 (use (handleOf 0 (VNum 0)));
            delay 1 (use (handleOf 1 (VStr "tenant")));
            nested (handleOf 0 (VNum 0)) (VStr "inner");
            throwing (handleOf 0 (VNum 0)) (VStr "stop")]
           [3; 2; 0; 1; 2; 0; 1; 2; 0]
           (<[1:=VStr "tenant"]> (<[0:=VNum 0]> ∅)) 2).
  repeat constructor.
Defined.

(** The scenario of the witness, computed: the order of the turns lets
    the last call settle first; the results are the read of the first
    call, the inherited read of the second, the three reads of the third
    and the rejection of the fourth. *)
Example concurrent_runs_computed :
  let handle := handleOf 0 (VNum 0) in
  let other := handleOf 1 (VStr "tenant") in
  let F : Frame := <[1:=VStr "tenant"]> (<[0:=VNum 0]> ∅) in
  let ops := [delay 2 (use handle); delay 1 (use other);
              nested handle (VStr "inner"); throwing handle (VStr "stop")] in
  let started := launch (fanOut handle ops) F 2 in
  pending (schedule [3; 2; 0; 1; 2; 0; 1; 2; 0]
             {| pending := started.1.1; nextStorage := started.2 |})
  = [Settled (Fulfilled (VNum 0));
     Settled (Fulfilled (VStr "tenant"));
     Settled (Fulfilled (VArr [VNum 2; VStr "inner"; VNum 2]));
     Settled (Rejected (VStr "stop"))].
Proof. reflexivity. Qed.
End Claims.

(** ** Further properties of the library *)

Section Further.
Implicit Types (storage : Storage) (initialValue value : Value).
Implicit Types (F : Frame) (n : nat) (fn : Async Value).

(** Timers before a computation change neither how it settles nor the
    storages it creates; the caller gets its frame back at the first. *)
Lemma exec_delay_S {A : Type} d (t : Async A) F n :
  exec (delay (S d) t) F n
  = (result (exec t F n), F, nextAfter (exec t F n)).
Proof.
  induction d as [|d IH].
  - cbn. by destruct (exec t F n) as [[o F'] n'].
  - change (delay (S (S d)) t) with (Sleep (delay (S d) t)).
    cbn [exec]. by rewrite IH.
Qed.

(** X1.  The binding survives suspension: awaiting any number of timers
    before an operation, inside [run(V, ...)], changes nothing of how it
    settles; a read after the timers yields V (the initial value when V is
    null or undefined), and so do the four reads of the test of
    asynchronous boundaries. *)
Theorem binding_survives_suspension storage initialValue value fn d F n :
  let handle := handleOf storage initialValue in
  result (exec (ContextHandle.run handle value (delay d fn)) F n)
  = result (exec (ContextHandle.run handle value fn) F n)
  ∧ result (exec (readAfter handle value d) F n)
    = Fulfilled (value ?? initialValue)
  ∧ result (exec (ContextHandle.run handle value (acrossBoundaries handle)) F n)
    = Fulfilled (VArr [value ?? initialValue; value ?? initialValue;
                       VArr [value ?? initialValue; value ?? initialValue]]).
Proof.
  intros handle. subst handle. unfold readAfter. rewrite !exec_run. cbv zeta.
  unfold result at 1 3 5 7. cbn [fst].
  rewrite !exec_delay, exec_use. split_and!; [done| |].
  - cbn. by stores.
  - cbn. by stores.
Qed.

(** X2.  An inner [run] on the same handle hides the outer one entirely:
    [run(A, () => run(B, fn))] is [run(B, fn)], in what [fn] sees, in how
    it settles and in the frame handed back. *)
Theorem inner_run_shadows_outer storage initialValue a b fn F n :
  let handle := handleOf storage initialValue in
  exec (ContextHandle.run handle a (ContextHandle.run handle b fn)) F n
  = exec (ContextHandle.run handle b fn) F n.
Proof.
  intros handle. subst handle. rewrite !exec_run. cbv zeta.
  unfold result, frameAfter, nextAfter. cbn [fst snd].
  by rewrite getStore_insert_eq, !insert_insert_eq.
Qed.

(** X3.  Runs on distinct handles commute: nesting them one way or the
    other gives the operation the same frame, the same result and the
    caller the same frame back. *)
Theorem runs_on_distinct_handles_commute
    storage1 storage2 default1 default2 a b fn F n :
  storage1 ≠ storage2 →
  let handle1 := handleOf storage1 default1 in
  let handle2 := handleOf storage2 default2 in
  exec (ContextHandle.run handle1 a (ContextHandle.run handle2 b fn)) F n
  = exec (ContextHandle.run handle2 b (ContextHandle.run handle1 a fn)) F n.
Proof.
  intros Hne handle1 handle2. subst handle1 handle2.
  rewrite !exec_run. cbv zeta.
  unfold result, frameAfter, nextAfter. cbn [fst snd].
  rewrite !getStore_insert_ne by done.
  rewrite (insert_insert_ne F) by done.
  f_equal. f_equal. by apply insert_insert_ne.
Qed.

Lemma runs_on_distinct_handles_commute_witness :
  let handle1 := handleOf 0 (VStr "default-string") in
  let handle2 := handleOf 1 (VNum 0) in
  let F : Frame := <[1:=VNum 0]> (<[0:=VStr "default-string"]> ∅) in
  exec (ContextHandle.run handle1 (VStr "hello")
          (ContextHandle.run handle2 (VNum 42) (readAround handle1 handle2 VNull)))
       F 2
  = exec (ContextHandle.run handle2 (VNum 42)
            (ContextHandle.run handle1 (VStr "hello")
               (readAround handle1 handle2 VNull)))
         F 2.
Proof.
  apply (runs_on_distinct_handles_commute 0 1 (VStr "default-string") (VNum 0)
           (VStr "hello") (VNum 42)).
  lia.
Defined.
(** [deepAsync] in an extent where the storage holds [k]. *)
Lemma exec_deepAsync plusOne storage initialValue depth : ∀ k F n,
  (∀ j, (k ≤ j < k + Z.of_nat depth)%Z → plusOne (VNum j) = VNum (j + 1)) →
  getStore F storage = VNum k →
  result (exec (deepAsync plusOne (handleOf storage initialValue) depth) F n)
  = Fulfilled (countUp k depth).
Proof.
  induction depth as [|depth IH]; intros k F n Hplus HF.
  - cbn. by rewrite HF.
  - change (deepAsync plusOne (handleOf storage initialValue) (S depth))
      with (GetStore storage (λ x,
              StorageRun storage (plusOne (x ?? initialValue))
                (Sleep (deepAsync plusOne (handleOf storage initialValue)
                          depth))
                (λ nextResults,
                   Return (spread (x ?? initialValue) nextResults)))).
    cbn [exec]. rewrite HF. cbn [nullish_coalesce].
    rewrite (Hplus k) by lia.
    assert (result (exec (deepAsync plusOne (handleOf storage initialValue)
                            depth) (<[storage:=VNum (k + 1)]> F) n)
            = Fulfilled (countUp (k + 1) depth)) as Hbelow.
    { apply IH; [|apply getStore_insert_eq]. intros j Hj. apply Hplus. lia. }
    destruct (exec (deepAsync _ _ depth) (<[storage:=VNum (k + 1)]> F) n)
      as [[o F1] n1].
    unfold result in *. cbn [fst] in *. subst o. cbn. unfold countUp. rewrite (seqZ_cons k) by lia. cbn.
    by replace (Z.pred (Z.of_nat (S (S depth)))) with (Z.of_nat (S depth))
      by lia.
Qed.

(** X4.  The recursion of the test of deep nesting, at every depth: run
    with the number [k] bound, [deepAsync(depth)] is fulfilled with
    [[k, k + 1, ..., k + depth]], provided [current + 1] is exact on
    [k, ..., k + depth - 1] (as it is on the integers below 2^53): each
    level reads the value its caller bound for it, after a timer, and
    binds the next for its callee. *)
Theorem deepAsync_counts_up plusOne storage initialValue depth k F n :
  (∀ j, (k ≤ j < k + Z.of_nat depth)%Z → plusOne (VNum j) = VNum (j + 1)) →
  result (exec (ContextHandle.run (handleOf storage initialValue) (VNum k)
                  (deepAsync plusOne (handleOf storage initialValue) depth))
            F n)
  = Fulfilled (countUp k depth).
Proof.
  intros Hplus. rewrite exec_run. cbv zeta. unfold result at 1. cbn [fst].
  by apply exec_deepAsync; [|apply getStore_insert_eq].
Qed.

(** The test itself: depth 3 from 1, the addition being exact on 1, 2
    and 3. *)
Lemma deepAsync_counts_up_witness :
  let plusOne v := match v with VNum j => VNum (j + 1) | _ => v end in
  result (exec (ContextHandle.run (handleOf 0 (VNum 0)) (VNum 1)
                  (deepAsync plusOne (handleOf 0 (VNum 0)) 3))
            (<[0:=VNum 0]> ∅) 1)
  = Fulfilled (VArr [VNum 1; VNum 2; VNum 3; VNum 4]).
Proof.
  apply (deepAsync_counts_up
           (λ v, match v with VNum j => VNum (j + 1) | _ => v end)
           0 (VNum 0) 3 1).
  intros j Hj. reflexivity.
Defined.

(** X5.  A [run] that is not awaited: as soon as it has handed back its
    promise, with the operation still on its timers, the caller reads what
    it read before the call; and the operation, when its timers are over,
    still reads the value [run] bound for it. *)
Theorem run_restores_while_operation_is_pending
    storage initialValue value d F n :
  let handle := handleOf storage initialValue in
  let started := start (readAfter handle value (S d)) F n in
  (∀ o, started.1.1 ≠ Settled o)
  ∧ getStore started.1.2 storage = getStore F storage
  ∧ result (exec (use handle) started.1.2 started.2)
    = result (exec (use handle) F n)
  ∧ (ticks (S (S d)) started.1.1 started.2).1
    = Settled (Fulfilled (value ?? initialValue)).
Proof.
  intros handle started.
  pose proof (ticks_readAfter storage initialValue value (S d) F n) as Hticks.
  fold handle started in Hticks.
  subst started handle. rewrite start_readAfter in *. cbv zeta in *.
  cbn [fst snd] in *. rewrite !exec_use. cbn [result fst].
  rewrite getStore_insert_eq. by split_and!.
Qed.
(** X6.  A handle may be created anywhere: created by the operation of a
    [run] on another handle, before or after timers, it reads its initial
    value inside the operation and, afterwards, for the caller of that
    [run]; the caller's read is the initial value whether or not the seed
    of [createContext] is in its frame. *)
Theorem handle_created_inside_run_reads_default
    storage initialValue value default d F n :
  storage < n → F !! n = None →
  let handle := handleOf storage initialValue in
  let created := handleOf n default in
  let r := exec (ContextHandle.run handle value
                   (delay d (let* fresh := createContext default in use fresh)))
             F n in
  result (exec (delay d (createContext default)) (<[storage:=value]> F) n)
  = Fulfilled created
  ∧ result r = Fulfilled default
  ∧ nextAfter r = S n
  ∧ result (exec (use created) (frameAfter r) (nextAfter r))
    = Fulfilled default
  ∧ result (exec (use created) (<[n:=default]> (frameAfter r)) (nextAfter r))
    = Fulfilled default
  ∧ result (exec (use created) (delete n (frameAfter r)) (nextAfter r))
    = Fulfilled default.
Proof.
  intros Hlt Hfresh handle created r.
  assert (∀ G m, result (exec (use created) (<[n:=default]> G) m)
                 = Fulfilled default) as Hseeded.
  { intros G m. unfold created. rewrite exec_use. cbn. stores.
    by destruct default. }
  assert (∀ G m, result (exec (use created) (delete n G) m)
                 = Fulfilled default) as Hbare.
  { intros G m. unfold created. rewrite exec_use. cbn. unfold getStore.
    by rewrite lookup_delete_eq. }
  split_and!; [| | | |apply Hseeded|apply Hbare];
    subst r handle created; rewrite ?exec_run; cbv zeta; destruct d as [|d];
    rewrite ?exec_delay_S; cbn; try done.
  - stores. by destruct default.
  - stores. by destruct default.
  - stores. by destruct default.
  - rewrite !getStore_insert_ne by lia.
    unfold getStore, Storage in *. by rewrite Hfresh.
Qed.

Lemma handle_created_inside_run_reads_default_witness :
  let handle := handleOf 0 (VStr "initial") in
  let created := handleOf 1 (VStr "late") in
  let F : Frame := <[0:=VStr "initial"]> ∅ in
  let r d := exec (ContextHandle.run handle (VStr "outer")
                     (delay d (let* fresh := createContext (VStr "late") in
                               use fresh))) F 1 in
  (result (r 0) = Fulfilled (VStr "late")
   ∧ result (exec (use created) (frameAfter (r 0)) (nextAfter (r 0)))
     = Fulfilled (VStr "late"))
  ∧ (result (r 2) = Fulfilled (VStr "late")
     ∧ result (exec (use created) (frameAfter (r 2)) (nextAfter (r 2)))
       = Fulfilled (VStr "late")).
Proof.
  split.
  - pose proof (handle_created_inside_run_reads_default 0 (VStr "initial")
                  (VStr "outer") (VStr "late") 0 (<[0:=VStr "initial"]> ∅) 1
                  ltac:(lia) eq_refl) as H.
    cbv zeta in H. tauto.
  - pose proof (handle_created_inside_run_reads_default 0 (VStr "initial")
                  (VStr "outer") (VStr "late") 2 (<[0:=VStr "initial"]> ∅) 1
                  ltac:(lia) eq_refl) as H.
    cbv zeta in H. tauto.
Defined.

(** X7.  An operation that reaches storages only through [createContext],
    [use], [run] and awaits cannot change what the caller of [run] reads
    through a handle that existed before the call, the handle it runs on
    included. *)
Theorem library_operations_keep_older_handles
    lo storage storage' initialValue initialValue' value fn F n :
  writesAbove lo fn → lo ≤ n → storage' < lo →
  let r := exec (ContextHandle.run (handleOf storage initialValue) value fn)
             F n in
  getStore (frameAfter r) storage' = getStore F storage'
  ∧ result (exec (use (handleOf storage' initialValue'))
              (frameAfter r) (nextAfter r))
    = result (exec (use (handleOf storage' initialValue')) F n).
Proof.
  intros Hfn Hlo Hlt r.
  pose proof (run_keeps_older_stores storage initialValue lo value fn F n
                storage' Hfn Hlo Hlt) as Hkeep.
  fold r in Hkeep. split; [done|].
  rewrite !exec_use. unfold result. cbn [fst]. by rewrite Hkeep.
Qed.

Lemma library_operations_keep_older_handles_witness :
  let F : Frame := <[1:=VNum 0]> (<[0:=VStr "initial"]> ∅) in
  let fn := let* fresh := createContext (VStr "tmp") in
            ContextHandle.run fresh (VStr "x")
              (Sleep (ContextHandle.run (handleOf 1 (VNum 0)) (VNum 7)
                        (use fresh))) in
  let r := exec (ContextHandle.run (handleOf 0 (VStr "initial")) (VStr "v") fn)
             F 2 in
  getStore (frameAfter r) 1 = getStore F 1
  ∧ result (exec (use (handleOf 1 (VNum 0))) (frameAfter r) (nextAfter r))
    = result (exec (use (handleOf 1 (VNum 0))) F 2).
Proof.
  apply (library_operations_keep_older_handles 2 0 1 (VStr "initial") (VNum 0)
           (VStr "v")).
  - intros s Hs. cbn. repeat split; lia.
  - lia.
  - lia.
Defined.
(** X8.  Concurrent runs of any operations that bind nothing themselves
    (reads, runs, awaits): whatever the order of the turns and whatever
    the other calls do, call [i] settles as its operation does alone in
    the caller's frame with its own value bound, it does settle given
    enough turns, and the caller finds every store as it was. *)
Theorem concurrent_runs_settle_as_alone
    storage initialValue (bound : list (Value * Async Value)) F n i v op :
  Forall (λ vop, bindsNothing vop.2) bound →
  bound !! i = Some (v, op) →
  let handle := handleOf storage initialValue in
  let started := launch (runEach handle bound) F n in
  let alone := result (exec op (<[storage:=v]> F) n) in
  let loop order :=
    schedule order {| pending := started.1.1; nextStorage := started.2 |} in
  (∀ order o, pending (loop order) !! i = Some (Settled o) → o = alone)
  ∧ (∃ fuel, ∀ order, fuel ≤ count_occ Nat.eq_dec order i →
       pending (loop order) !! i = Some (Settled alone))
  ∧ sameStores started.1.2 F.
Proof.
  intros Hbound Hi handle started alone loop.
  assert (Forall bindsNothing (runEach handle bound)) as Hcalls.
  { apply Forall_fmap. eapply Forall_impl; [exact Hbound|].
    intros [v' op'] Hop'. by split. }
  assert (runEach handle bound !! i = Some (ContextHandle.run handle v op))
    as Hcall.
  { unfold runEach. by rewrite list_lookup_fmap, Hi. }
  assert (Forall allocFree (runEach handle bound)) as Hfree.
  { eapply Forall_impl; [exact Hcalls|]. apply @bindsNothing_allocFree. }
  destruct (launched_settles_as_alone _ F n i _ Hfree Hcall) as [Hsafe Hlive].
  assert (result (exec (ContextHandle.run handle v op)
                    (launch (take i (runEach handle bound)) F n).1.2 n)
          = alone) as Halone.
  { unfold handle. rewrite exec_run. cbv zeta. unfold result at 1. cbn [fst].
    apply exec_sameStores, sameStores_insert, launch_bindsNothing.
    by apply Forall_take. }
  rewrite Halone in Hsafe, Hlive.
  split_and!; [exact Hsafe | exact Hlive |].
  by apply launch_bindsNothing.
Qed.

Lemma concurrent_runs_settle_as_alone_witness :
  let handle := handleOf 0 (VArr []) in
  let F : Frame := <[0:=VArr []]> ∅ in
  let bound := [(VArr [VStr "item-0"], delay 2 (use handle));
                (VArr [VStr "item-1"], nested handle VNull);
                (VArr [VStr "item-2"], Throw (VStr "stop"))] in
  let started := launch (runEach handle bound) F 1 in
  let alone :=
    result (exec (nested handle VNull) (<[0:=VArr [VStr "item-1"]]> F) 1) in
  let loop order :=
    schedule order {| pending := started.1.1; nextStorage := started.2 |} in
  (∀ order o, pending (loop order) !! 1 = Some (Settled o) → o = alone)
  ∧ (∃ fuel, ∀ order, fuel ≤ count_occ Nat.eq_dec order 1 →
       pending (loop order) !! 1 = Some (Settled alone))
  ∧ sameStores started.1.2 F.
Proof.
  apply (concurrent_runs_settle_as_alone 0 (VArr [])
           [(VArr [VStr "item-0"], delay 2 (use (handleOf 0 (VArr []))));
            (VArr [VStr "item-1"], nested (handleOf 0 (VArr [])) VNull);
            (VArr [VStr "item-2"], Throw (VStr "stop"))]
           (<[0:=VArr []]> ∅) 1 1).
  - repeat constructor.
  - reflexivity.
Defined.
(** *** Runs one after the other, and runs inside runs *)

Lemma exec_allocFree_next {A : Type} (t : Async A) : ∀ F n,
  allocFree t → nextAfter (exec t F n) = n.
Proof.
  unfold nextAfter.
  induction t as [A a | A e | A k IH | A s v k IH | A s k IH
                 | A s v fn IHfn k IHk | A k IH]; intros F n Ht;
    cbn [allocFree exec] in *.
  - done.
  - done.
  - done.
  - by apply IH.
  - by apply IH.
  - destruct Ht as [Hfn Hk]. specialize (IHfn (<[s:=v]> F) n Hfn).
    destruct (exec fn (<[s:=v]> F) n) as [[[b|e] F1] n1]; cbn [snd] in *;
      [|done].
    specialize (IHk b (<[s:=getStore F s]> F1) n1 (Hk b)).
    destruct (exec (k b) (<[s:=getStore F s]> F1) n1) as [[o F3] n2].
    cbn [snd] in *. by subst.
  - specialize (IH F n Ht). by destruct (exec k F n) as [[o F'] n'].
Qed.

(** What follows a completed [run] of a computation that binds nothing. *)
Lemma exec_run_then_bindsNothing {B : Type}
    storage initialValue value fn (k : Value → Async B) F n :
  bindsNothing fn →
  let whole := exec (let* x := ContextHandle.run (handleOf storage initialValue)
                                 value fn in k x) F n in
  match result (exec fn (<[storage:=value]> F) n) with
  | Fulfilled x =>
      result whole = result (exec (k x) F n)
      ∧ nextAfter whole = nextAfter (exec (k x) F n)
  | Rejected e => result whole = Rejected e
  end.
Proof.
  intros Hfn whole. subst whole.
  assert (bindsNothing
            (ContextHandle.run (handleOf storage initialValue) value fn))
    as Hrun by by split.
  pose proof (exec_bindsNothing _ F n Hrun) as Hframe.
  pose proof (exec_allocFree_next _ F n (bindsNothing_allocFree _ Hrun))
    as Hnext.
  rewrite exec_run_then. rewrite exec_run in *. cbv zeta in *.
  destruct (exec fn (<[storage:=value]> F) n) as [[ob F1] n1].
  unfold result, nextAfter, frameAfter in *. cbn [fst snd] in *. subst n1.
  destruct ob as [x|e]; [|done].
  destruct (exec_sameStores (k x) _ _ n Hframe) as (Ho & Hn & _).
  unfold result, nextAfter in *. by split.
Qed.

(** X9.  A completed [run] leaves no trace: after [await handle.run(V,
    fn)], for [fn] that binds nothing itself, what follows settles as it
    would have without the call, given what [fn] returned; and when [fn]
    was rejected, so is the whole, with the same error. *)
Theorem completed_run_leaves_no_trace {B : Type}
    storage initialValue value fn (k : Value → Async B) F n :
  bindsNothing fn →
  let handle := handleOf storage initialValue in
  let whole := exec (let* x := ContextHandle.run handle value fn in k x) F n in
  match result (exec fn (<[storage:=value]> F) n) with
  | Fulfilled x =>
      result whole = result (exec (k x) F n)
      ∧ nextAfter whole = nextAfter (exec (k x) F n)
  | Rejected e => result whole = Rejected e
  end.
Proof. apply exec_run_then_bindsNothing. Qed.

Lemma completed_run_leaves_no_trace_witness :
  let handle := handleOf 0 (VStr "initial") in
  let F : Frame := <[0:=VStr "initial"]> ∅ in
  let whole := exec (let* x := ContextHandle.run handle (VStr "first")
                                 (delay 1 (use handle)) in
                     nested handle x) F 1 in
  result whole = result (exec (nested handle (VStr "first")) F 1)
  ∧ nextAfter whole = nextAfter (exec (nested handle (VStr "first")) F 1).
Proof.
  exact (completed_run_leaves_no_trace 0 (VStr "initial") (VStr "first")
           (delay 1 (use (handleOf 0 (VStr "initial"))))
           (nested (handleOf 0 (VStr "initial")))
           (<[0:=VStr "initial"]> ∅) 1 (fun _ => I)).
Defined.

(** [stacked] in any frame: the levels above do not show. *)
Lemma exec_stacked storage initialValue vs : ∀ F n,
  result (exec (stacked (handleOf storage initialValue) vs) F n)
  = Fulfilled (stackedReads (λ v, v ?? initialValue) vs)
  ∧ nextAfter (exec (stacked (handleOf storage initialValue) vs) F n) = n
  ∧ sameStores (frameAfter (exec (stacked (handleOf storage initialValue) vs)
                              F n)) F.
Proof.
  induction vs as [|v vs IH]; intros F n; [by split_and!|].
  change (stacked (handleOf storage initialValue) (v :: vs))
    with (ContextHandle.run (handleOf storage initialValue) v
            (GetStore storage (λ x,
               bind (stacked (handleOf storage initialValue) vs) (λ below,
                 GetStore storage (λ y,
                   Return (VArr [x ?? initialValue; below;
                                 y ?? initialValue])))))).
  rewrite exec_run. cbv zeta. cbn [exec]. rewrite getStore_insert_eq.
  destruct vs as [|w vs].
  - cbn. rewrite getStore_insert_eq. split_and!; [done..|].
    intros s. destruct (decide (storage = s)) as [->|]; by stores.
  - change (stacked (handleOf storage initialValue) (w :: vs))
      with (ContextHandle.run (handleOf storage initialValue) w
              (GetStore storage (λ x,
                 bind (stacked (handleOf storage initialValue) vs) (λ below,
                   GetStore storage (λ y,
                     Return (VArr [x ?? initialValue; below;
                                   y ?? initialValue])))))) in *.
    rewrite exec_run_then. cbv zeta.
    destruct (IH (<[storage:=v]> F) n) as (Ho & Hn & HF).
    rewrite Ho, Hn. cbn [exec]. rewrite (HF storage), getStore_insert_eq.
    unfold result, nextAfter, frameAfter in *. cbn [fst snd].
    split_and!; [done..|].
    intros s. destruct (decide (storage = s)) as [->|]; stores; [done|].
    rewrite (HF s). by stores.
Qed.

(** X10.  The stack of bindings at any depth: with runs on one handle
    nested one level per value of a list, every level reads the value
    bound at its own level (the initial value when that value is null or
    undefined), before the level below has run and again after it has
    returned; and the caller of the outermost [run] finds every store as
    it was. *)
Theorem nested_runs_form_a_stack storage initialValue vs F n :
  let handle := handleOf storage initialValue in
  result (exec (stacked handle vs) F n)
  = Fulfilled (stackedReads (λ v, v ?? initialValue) vs)
  ∧ sameStores (frameAfter (exec (stacked handle vs) F n)) F
  ∧ result (exec (use handle) (frameAfter (exec (stacked handle vs) F n))
              (nextAfter (exec (stacked handle vs) F n)))
    = result (exec (use handle) F n).
Proof.
  intros handle. subst handle.
  destruct (exec_stacked storage initialValue vs F n) as (Ho & Hn & HF).
  split_and!; [done..|]. rewrite !exec_use. unfold result. cbn [fst].
  by rewrite (HF storage).
Qed.
(** X11.  The function [runWithContext] returns can be used again: used
    on one operation and then on another, it gives each the frame of the
    caller with the value bound, so that each returns what it returns
    there alone (the first operation binding nothing itself). *)
Theorem runner_can_be_reused storage initialValue value op1 op2 F n x y :
  bindsNothing op1 →
  result (exec op1 (<[storage:=value]> F) n) = Fulfilled x →
  result (exec op2 (<[storage:=value]> F) n) = Fulfilled y →
  let runner := runWithContext (handleOf storage initialValue) value in
  result (exec (let* first := runner op1 in
                let* second := runner op2 in
                Return (VArr [first; second])) F n)
  = Fulfilled (VArr [x; y]).
Proof.
  intros Hop1 Hx Hy runner. subst runner. unfold runWithContext.
  pose proof (exec_run_then_bindsNothing storage initialValue value op1
                (λ first, let* second := ContextHandle.run
                                           (handleOf storage initialValue)
                                           value op2 in
                          Return (VArr [first; second])) F n Hop1) as Hthen.
  cbv zeta in Hthen. rewrite Hx in Hthen. destruct Hthen as [-> _].
  rewrite exec_run_then, exec_run. cbv zeta.
  destruct (exec op2 (<[storage:=value]> F) n) as [[ob F1] n1].
  unfold result in *. cbn [fst] in *. by subst ob.
Qed.

Lemma runner_can_be_reused_witness :
  let handle := handleOf 0 (VStr "initial") in
  let runner := runWithContext handle (VStr "utility-value") in
  result (exec (let* first := runner (delay 1 (use handle)) in
                let* second := runner (nested handle VNull) in
                Return (VArr [first; second])) (<[0:=VStr "initial"]> ∅) 1)
  = Fulfilled (VArr [VStr "utility-value";
                     VArr [VStr "utility-value"; VStr "initial";
                           VStr "utility-value"]]).
Proof.
  apply (runner_can_be_reused 0 (VStr "initial") (VStr "utility-value")
           (delay 1 (use (handleOf 0 (VStr "initial"))))
           (nested (handleOf 0 (VStr "initial")) VNull)).
  - exact (fun _ => I).
  - reflexivity.
  - reflexivity.
Defined.
End Further.
